(** * Job-posting segmentation, consolidation and filtering ([jobs.py])

    A shallow embedding of the three pure stages of [jobs.py]:
    - [extract_job_sections]  (the Segmenter, lines 17-50),
    - [consolidate_jobs]      (the Consolidator, lines 143-214),
    - the final filtering loop of [main] (the Filter, lines 240-249).

    Character model.  A Python [str] is modelled as a list of characters
    whose code points lie in 0..255; a value of type [ascii] is read as
    that code point.  [str.lower], [str.strip], [\W] and case-insensitive
    matching are the ones of CPython on that range (they never leave it).
    Strings with code points above 255 are outside the model. *)

From Stdlib Require Import Ascii String.
From Stdlib Require Import List Bool Arith Lia.
Import ListNotations.

Set Implicit Arguments.

Local Open Scope string_scope.
Local Open Scope nat_scope.
Local Open Scope bool_scope.
Local Open Scope list_scope.

(** ** Python strings *)

Definition str := list ascii.

(** String literals of the source are written [py "..."]. *)
Definition py (s : string) : str := list_ascii_of_string s.

Definition between (lo hi n : nat) : bool := (lo <=? n) && (n <=? hi).

(** [str.isspace] on one character: TAB..CR, FS..US, SPACE, NEL, NBSP. *)
Definition is_space (c : ascii) : bool :=
  let n := nat_of_ascii c in
  between 9 13 n || between 28 32 n || (n =? 133) || (n =? 160).

(** Characters changed by [str.lower]: A..Z and the Latin-1 capitals. *)
Definition is_upper (c : ascii) : bool :=
  let n := nat_of_ascii c in
  between 65 90 n || (between 192 222 n && negb (n =? 215)).

Definition lower_char (c : ascii) : ascii :=
  if is_upper c then ascii_of_nat (nat_of_ascii c + 32) else c.

(** [s.lower()] *)
Definition lower (s : str) : str := map lower_char s.

(** The class [\w] of [re] on [str] patterns: alphanumerics and [_]. *)
Definition is_word (c : ascii) : bool :=
  let n := nat_of_ascii c in
  between 48 57 n || between 65 90 n || (n =? 95) || between 97 122 n
  || (n =? 170) || between 178 179 n || (n =? 181) || between 185 186 n
  || between 188 190 n || between 192 214 n || between 216 246 n
  || between 248 255 n.

Fixpoint lstrip (s : str) : str :=
  match s with
  | [] => []
  | c :: s' => if is_space c then lstrip s' else s
  end.

Definition rstrip (s : str) : str := rev (lstrip (rev s)).

(** [s.strip()] *)
Definition strip (s : str) : str := rstrip (lstrip s).

Fixpoint str_eqb (a b : str) : bool :=
  match a, b with
  | [], [] => true
  | x :: a', y :: b' => Ascii.eqb x y && str_eqb a' b'
  | _, _ => false
  end.

(** [s.startswith(p)] *)
Fixpoint startswith (p s : str) : bool :=
  match p, s with
  | [], _ => true
  | _ :: _, [] => false
  | x :: p', y :: s' => Ascii.eqb x y && startswith p' s'
  end.

(** [s.endswith(p)] *)
Definition endswith (p s : str) : bool := startswith (rev p) (rev s).

(** [sub in s] *)
Fixpoint contains (sub s : str) : bool :=
  startswith sub s ||
  match s with
  | [] => false
  | _ :: s' => contains sub s'
  end.

(** [x in l] for a list (or a set) of strings *)
Definition mem (x : str) (l : list str) : bool := existsb (str_eqb x) l.

(** [sep.join(l)] *)
Fixpoint join (sep : str) (l : list str) : str :=
  match l with
  | [] => []
  | [x] => x
  | x :: rest => x ++ sep ++ join sep rest
  end.

(** [s.split(sep)] for a one-character separator: every occurrence of
    the separator ends a field, so the result is never empty. *)
Fixpoint split_char (sep : ascii) (cur : str) (s : str) : list str :=
  match s with
  | [] => [cur]
  | c :: s' =>
      if Ascii.eqb c sep then cur :: split_char sep [] s'
      else split_char sep (cur ++ [c]) s'
  end.

Definition newline : ascii := ascii_of_nat 10.

Definition split_lines (text : str) : list str := split_char newline [] text.

(** ** The fragment of [re] the source uses *)

(** Patterns of [job_patterns]: literals, concatenation, alternation and
    [?].  Groups only capture, they do not change what [re.search] finds. *)
Inductive regex : Type :=
| Eps : regex
| Chr : ascii -> regex
| Cat : regex -> regex -> regex
| Alt : regex -> regex -> regex
| Opt : regex -> regex.

(** The comparison of a character of the text with a character of the
    pattern under [re.I].  On the characters of the model it is equality
    of the lowercase forms.  The further pairs that CPython takes for equal
    (i with U+0130 and U+0131, s with U+017F, k with U+212A) involve
    characters above 255, which the model does not hold. *)
Definition ci_eqb (x c : ascii) : bool :=
  Ascii.eqb (lower_char x) (lower_char c).

(** All the ways [r] matches a prefix of [s] under [re.I]: the list of what
    is left of [s] after each match. *)
Fixpoint rmatch (r : regex) (s : str) : list str :=
  match r with
  | Eps => [s]
  | Chr c =>
      match s with
      | x :: s' => if ci_eqb x c then [s'] else []
      | [] => []
      end
  | Cat r1 r2 => flat_map (rmatch r2) (rmatch r1 s)
  | Alt r1 r2 => rmatch r1 s ++ rmatch r2 s
  | Opt r1 => rmatch r1 s ++ [s]
  end.

Definition matches_here (r : regex) (s : str) : bool :=
  match rmatch r s with
  | [] => false
  | _ :: _ => true
  end.

(** [re.search(r, s, re.I) is not None]: a match starting at some position. *)
Fixpoint re_search (r : regex) (s : str) : bool :=
  matches_here r s ||
  match s with
  | [] => false
  | _ :: s' => re_search r s'
  end.

Definition lit (w : str) : regex := fold_right (fun c r => Cat (Chr c) r) Eps w.

(** [r | r1 | ... | rn] *)
Fixpoint alts (r : regex) (rs : list regex) : regex :=
  match rs with
  | [] => r
  | r' :: rest => Alt r (alts r' rest)
  end.

(** An alternation of literal words, [(w|w1|...|wn)]. *)
Definition words (w : string) (ws : list string) : regex :=
  alts (lit (py w)) (map (fun x => lit (py x)) ws).

(** [re.split] on a pattern [[...]+] given by its character class: the
    fields between maximal runs of class characters; a run at either end
    of the string leaves an empty field there. *)
Fixpoint split_runs (cls : ascii -> bool) (in_run : bool) (cur : str) (s : str)
  : list str :=
  match s with
  | [] => [cur]
  | c :: s' =>
      if cls c then
        if in_run then split_runs cls true [] s'
        else cur :: split_runs cls true [] s'
      else split_runs cls false (cur ++ [c]) s'
  end.

Definition re_split_class (cls : ascii -> bool) (s : str) : list str :=
  split_runs cls false [] s.

(** [re.sub] of a pattern [C+] by the empty string: every character of the
    class goes. *)
Definition re_sub_class (cls : ascii -> bool) (s : str) : str :=
  filter (fun c => negb (cls c)) s.

(** [[.!?]] *)
Definition is_terminator (c : ascii) : bool :=
  let n := nat_of_ascii c in (n =? 46) || (n =? 33) || (n =? 63).

(** [\W] *)
Definition is_nonword (c : ascii) : bool := negb (is_word c).

(** ** Exceptions *)

Inductive exn : Type := IndexError | KeyError.

Inductive result (A : Type) : Type :=
| Ok : A -> result A
| Raise : exn -> result A.

Arguments Ok {A} _.
Arguments Raise {A} _.

Definition bind {A B : Type} (m : result A) (k : A -> result B) : result B :=
  match m with
  | Ok a => k a
  | Raise e => Raise e
  end.

Notation "x <- m ;; k" := (bind m (fun x => k))
  (at level 61, m at next level, right associativity).

(** [l[0]] and [l[-1]] *)
Definition first_item {A : Type} (l : list A) : result A :=
  match l with
  | x :: _ => Ok x
  | [] => Raise IndexError
  end.

Fixpoint last_item {A : Type} (l : list A) : result A :=
  match l with
  | [] => Raise IndexError
  | [x] => Ok x
  | _ :: l' => last_item l'
  end.

(** ** Dictionaries keyed by strings, in insertion order *)

Section Dict.
Variable V : Type.

Definition dict := list (str * V).

Definition dict_keys (d : dict) : list str := map fst d.

(** [k in d] *)
Definition dict_mem (k : str) (d : dict) : bool := mem k (dict_keys d).

(** [d[k]] *)
Fixpoint dict_get (k : str) (d : dict) : result V :=
  match d with
  | [] => Raise KeyError
  | (k', v) :: d' => if str_eqb k k' then Ok v else dict_get k d'
  end.

(** [d[k] = v]: a present key keeps its place, a new one goes last. *)
Fixpoint dict_set (k : str) (v : V) (d : dict) : dict :=
  match d with
  | [] => [(k, v)]
  | (k', v') :: d' =>
      if str_eqb k k' then (k, v) :: d' else (k', v') :: dict_set k v d'
  end.
End Dict.

(** ** The Segmenter: [extract_job_sections] *)

Definition nonempty {A : Type} (l : list A) : bool :=
  match l with
  | [] => false
  | _ :: _ => true
  end.

(** The words of the first two patterns after their first word, then the
    four patterns of [job_patterns], in the order of the source. *)
Definition title_words : list string :=
  ["software developer"; "web developer"; "data analyst"; "ui/ux designer";
   "quality assurance"; "devops engineer"; "marketing manager";
   "sales manager"].

Definition opening_words : list string :=
  ["role"; "job"; "opening"; "career"; "hiring"].

Definition title_pattern : regex := words "project manager" title_words.

Definition opening_pattern : regex := words "position" opening_words.

Definition requirement_pattern : regex :=
  alts (Cat (lit (py "requirement")) (Opt (Chr "s"%char)))
       [lit (py "responsibilities"); lit (py "qualifications");
        lit (py "experience")].

Definition place_pattern : regex :=
  words "karachi" ["lahore"; "islamabad"; "remote"; "on-site"].

Definition job_patterns : list regex :=
  [title_pattern; opening_pattern; requirement_pattern; place_pattern].

Section Segmenter.
(** The pattern list is a parameter, so that what the result depends on
    can be stated; the source's list is [job_patterns]. *)
Variable patterns : list regex.

(** [any(re.search(pattern, line, re.I) for pattern in job_patterns[:2])] *)
Definition is_job_start_with (line : str) : bool :=
  existsb (fun pattern => re_search pattern line) (firstn 2 patterns).

(** One turn of the [for line in lines] loop on the pair
    [(sections, current_section)]. *)
Definition section_step (st : list str * list str) (line : str)
  : list str * list str :=
  let '(sections, current_section) := st in
  let line := strip line in
  if negb (nonempty line) then st
  else
    let is_job_start := is_job_start_with line in
    if is_job_start && nonempty current_section then
      (sections ++ [join [newline] current_section], [line])
    else
      (sections, current_section ++ [line]).

Definition extract_job_sections_with (text : str) : list str :=
  let lines := split_lines text in
  let '(sections, current_section) := fold_left section_step lines ([], []) in
  if nonempty current_section then
    sections ++ [join [newline] current_section]
  else sections.
End Segmenter.

Definition is_job_start : str -> bool := is_job_start_with job_patterns.

Definition extract_job_sections : str -> list str :=
  extract_job_sections_with job_patterns.

(** ** The Consolidator: [consolidate_jobs] *)

(** An item of [extractions]: the two attributes the function reads. *)
Record Extraction : Type := {
  extraction_class : str;
  extraction_text : str
}.

(** A value of [jobs_by_title]: the dict with keys ['title'], ['locations']
    and ['descriptions']. *)
Record JobData : Type := {
  job_title : str;
  locations : list str;
  descriptions : list str
}.

(** An element of [consolidated_jobs]. *)
Record Posting : Type := {
  title : str;
  location : str;
  description : str
}.

Definition skip_terms : list str :=
  map py ["business continuity"; "managed hosting"; "content marketing";
          "brand identity"; "web design"; "canva"; "figma"; "blender"].

(** [any(term in extraction_text.lower() for term in skip_terms)] *)
Definition has_skip_term (extraction_text : str) : bool :=
  existsb (fun term => contains term (lower extraction_text)) skip_terms.

(** [jobs_by_title[key]['locations'].append(x)] and the same on
    ['descriptions'].  The dict holds the only reference to each job
    record and to its two lists, so the mutation is the replacement of the
    value stored under the key. *)
Definition append_location (x : str) (job : JobData) : JobData :=
  {| job_title := job_title job;
     locations := locations job ++ [x];
     descriptions := descriptions job |}.

Definition append_description (x : str) (job : JobData) : JobData :=
  {| job_title := job_title job;
     locations := locations job;
     descriptions := descriptions job ++ [x] |}.

Definition dict_modify (k : str) (f : JobData -> JobData) (d : dict JobData)
  : result (dict JobData) :=
  job <- dict_get k d ;;
  Ok (dict_set k (f job) d).

(** The body of [for item in extractions] (lines 149-180). *)
Definition loop_body (jobs_by_title : dict JobData) (item : Extraction)
  : result (dict JobData) :=
  let extraction_class := lower (extraction_class item) in
  let extraction_text := strip (extraction_text item) in
  if has_skip_term extraction_text then Ok jobs_by_title
  else if str_eqb extraction_class (py "title") then
    let title_key := strip (lower extraction_text) in
    if negb (dict_mem title_key jobs_by_title) then
      Ok (dict_set title_key
            {| job_title := extraction_text; locations := [];
               descriptions := [] |}
            jobs_by_title)
    else Ok jobs_by_title
  else if str_eqb extraction_class (py "location") then
    if nonempty jobs_by_title then
      last_title <- last_item (dict_keys jobs_by_title) ;;
      if nonempty extraction_text then
        job <- dict_get last_title jobs_by_title ;;
        if negb (mem extraction_text (locations job)) then
          dict_modify last_title (append_location extraction_text)
                      jobs_by_title
        else Ok jobs_by_title
      else Ok jobs_by_title
    else Ok jobs_by_title
  else if str_eqb extraction_class (py "description") then
    if nonempty jobs_by_title then
      last_title <- last_item (dict_keys jobs_by_title) ;;
      dict_modify last_title (append_description extraction_text)
                  jobs_by_title
    else Ok jobs_by_title
  else Ok jobs_by_title.

Fixpoint group_loop (extractions : list Extraction)
  (jobs_by_title : dict JobData) : result (dict JobData) :=
  match extractions with
  | [] => Ok jobs_by_title
  | item :: rest =>
      jobs_by_title' <- loop_body jobs_by_title item ;;
      group_loop rest jobs_by_title'
  end.

(** The body of [for sentence in sentences] on the pair
    [(all_descriptions, seen_content)]; the set [seen_content] is only
    tested for membership and added to, and is kept as a list. *)
Definition add_sentence (st : list str * list str) (sentence : str)
  : list str * list str :=
  let '(all_descriptions, seen_content) := st in
  let sentence := strip sentence in
  if 10 <? length sentence then
    let sentence_key := re_sub_class is_nonword (lower sentence) in
    if negb (mem sentence_key seen_content) then
      (all_descriptions ++ [sentence], seen_content ++ [sentence_key])
    else st
  else st.

(** The body of [for desc in job_data['descriptions']]. *)
Definition add_description (st : list str * list str) (desc : str)
  : list str * list str :=
  let sentences := re_split_class is_terminator desc in
  fold_left add_sentence sentences st.

(** Lines 189-206: from the collected descriptions to
    [combined_description]. *)
Definition combine_descriptions (descs : list str) : str :=
  let '(all_descriptions, _) := fold_left add_description descs ([], []) in
  let combined_description := join (py ". ") all_descriptions in
  if nonempty combined_description
     && negb (endswith (py ".") combined_description)
  then combined_description ++ py "."
  else combined_description.

(** The body of [for title_key, job_data in jobs_by_title.items()]. *)
Definition consolidate_one (job_data : JobData) : result Posting :=
  location <- (if nonempty (locations job_data)
               then first_item (locations job_data)
               else Ok (py "None")) ;;
  Ok {| title := job_title job_data;
        location := location;
        description := combine_descriptions (descriptions job_data) |}.

Fixpoint consolidate_loop (items : dict JobData)
  (consolidated_jobs : list Posting) : result (list Posting) :=
  match items with
  | [] => Ok consolidated_jobs
  | (_, job_data) :: rest =>
      job <- consolidate_one job_data ;;
      consolidate_loop rest (consolidated_jobs ++ [job])
  end.

Definition consolidate_jobs (extractions : list Extraction)
  : result (list Posting) :=
  jobs_by_title <- group_loop extractions [] ;;
  consolidate_loop jobs_by_title [].

(** ** The Filter: the final filtering of [main] (lines 240-249) *)

Definition job_title_keywords : list str :=
  map py ["manager"; "developer"; "engineer"; "analyst"; "designer";
          "coordinator"; "specialist"; "lead"; "senior"; "junior"; "intern"].

Definition filter_step (filtered_jobs : list Posting) (job : Posting)
  : list Posting :=
  let title_lower := lower (title job) in
  if existsb (fun keyword => contains keyword title_lower) job_title_keywords
  then
    if 50 <? length (description job) then filtered_jobs ++ [job]
    else filtered_jobs
  else filtered_jobs.

Definition final_filtering (jobs : list Posting) : list Posting :=
  fold_left filter_step jobs [].


(** ** Vocabulary of the statements *)

(** [sub in s] holds exactly when [sub] occurs in [s]. *)
Definition occurs (sub s : str) : Prop := exists a b, s = a ++ sub ++ b.

(** The word has a first and a last character, neither of them a space. *)
Definition edges_nonspace (t : str) : bool :=
  match t, rev t with
  | c :: _, d :: _ => negb (is_space c) && negb (is_space d)
  | _, _ => false
  end.

(** The keys of a dictionary are pairwise distinct. *)
Definition wf (V : Type) (d : dict V) : Prop := NoDup (dict_keys d).

(** What the loop of [consolidate_jobs] reads off an item: its class
    (line 149), its text (line 150), whether the denylist rejects it
    (line 156) and the key a title is grouped under (line 161). *)
Definition class_of (item : Extraction) : str := lower (extraction_class item).

Definition text_of (item : Extraction) : str := strip (extraction_text item).

Definition is_title (item : Extraction) : bool :=
  str_eqb (class_of item) (py "title").

Definition is_location (item : Extraction) : bool :=
  str_eqb (class_of item) (py "location").

Definition is_description (item : Extraction) : bool :=
  str_eqb (class_of item) (py "description").

Definition skipped (item : Extraction) : bool := has_skip_term (text_of item).

Definition title_key (item : Extraction) : str := strip (lower (text_of item)).

(** The record a new title is stored with (lines 163-167). *)
Definition fresh_job (text : str) : JobData :=
  {| job_title := text; locations := []; descriptions := [] |}.

(** The pairs (key, title) of a dictionary of jobs, in insertion order. *)
Definition titles (d : dict JobData) : list (str * str) :=
  map (fun kv => (fst kv, job_title (snd kv))) d.

(** The pairs (key, title) that a sequence of items adds to a dictionary
    whose keys are [seen]: one for each title item that passes the
    denylist and whose key is met for the first time. *)
Fixpoint created (seen : list str) (items : list Extraction)
  : list (str * str) :=
  match items with
  | [] => []
  | item :: rest =>
      if is_title item && negb (skipped item)
         && negb (mem (title_key item) seen)
      then (title_key item, text_of item)
             :: created (seen ++ [title_key item]) rest
      else created seen rest
  end.

(** The posting a job record is turned into, when nothing is raised. *)
Definition posting_of (job_data : JobData) : Posting :=
  {| title := job_title job_data;
     location := match locations job_data with
                 | x :: _ => x
                 | [] => py "None"
                 end;
     description := combine_descriptions (descriptions job_data) |}.

Definition postings_of (jobs : dict JobData) : list Posting :=
  map (fun kv => posting_of (snd kv)) jobs.

(** The text of the item contains, whatever the case of its letters, a term
    of the denylist. *)
Definition denylisted (item : Extraction) : Prop :=
  exists term, In term skip_terms /\ occurs term (lower (extraction_text item)).

(** An extraction, from its class and its text. *)
Definition extraction (class text : string) : Extraction :=
  {| extraction_class := py class; extraction_text := py text |}.

(** The fragment sequence of the grouping example. *)
Definition grouping_example : list Extraction :=
  [extraction "title" "Dev"; extraction "location" "Lahore";
   extraction "title" "dev "; extraction "description" "X."].




(** ** The merged description, in the words of the specification *)

(** Every description is split on runs of '.', '!' and '?', each piece is
    trimmed, and the pieces of trimmed length at most 10 are discarded. *)
Definition spec_pieces (descs : list str) : list str :=
  filter (fun piece => negb (length piece <=? 10))
         (map strip (flat_map (re_split_class is_terminator) descs)).

(** The dedup key: the non-word characters removed, then lowercased. *)
Definition spec_key (piece : str) : str :=
  lower (re_sub_class is_nonword piece).

(** A piece is kept when no piece before it, kept or not, has its key. *)
Fixpoint first_occurrences (earlier pieces : list str) : list str :=
  match pieces with
  | [] => []
  | p :: rest =>
      if mem (spec_key p) (map spec_key earlier)
      then first_occurrences (earlier ++ [p]) rest
      else p :: first_occurrences (earlier ++ [p]) rest
  end.

(** The survivors joined with ". ", and a final "." when the result is not
    empty and does not end with one. *)
Definition spec_description (descs : list str) : str :=
  let joined := join (py ". ") (first_occurrences [] (spec_pieces descs)) in
  if nonempty joined && negb (endswith (py ".") joined)
  then joined ++ py "."
  else joined.

(** No character of the string is a sentence terminator. *)
Definition terminator_free (s : str) : Prop :=
  Forall (fun c => is_terminator c = false) s.

(** ** Vocabulary of the Segmenter and of the Filter *)

(** Case-insensitive substring search: some part of [line] is [w]
    character by character, under the comparison of [re.I]. *)
Definition ci_occurs (w line : str) : Prop :=
  exists a m b,
    line = a ++ m ++ b /\ Forall2 (fun x c => ci_eqb x c = true) m w.

(** The words of the first two patterns: job titles, then openings. *)
Definition section_start_words : list str :=
  map py (("project manager" :: title_words)
            ++ ("position" :: opening_words)).

(** The lowercased title contains a role keyword. *)
Definition has_role_keyword (job : Posting) : Prop :=
  exists keyword,
    In keyword job_title_keywords /\ occurs keyword (lower (title job)).

(** The test of lines 246 and 248 on one posting. *)
Definition keeps (job : Posting) : bool :=
  existsb (fun keyword => contains keyword (lower (title job)))
          job_title_keywords
  && (50 <? length (description job)).

(** ** Vocabulary of the further properties *)

(** The lines the Segmenter works on: stripped, the blank ones dropped
    (lines 33-35). *)
Definition clean_lines (text : str) : list str :=
  filter nonempty (map strip (split_lines text)).

(** Lines cut into runs: a line on which [starts] holds opens a new run
    unless the current run is empty. *)
Fixpoint chunk (starts : str -> bool) (cur : list str) (lines : list str)
  : list (list str) :=
  match lines with
  | [] => if nonempty cur then [cur] else []
  | l :: rest =>
      if starts l && nonempty cur then cur :: chunk starts [l] rest
      else chunk starts (cur ++ [l]) rest
  end.

(** The string holds no line break. *)
Definition newline_free (s : str) : Prop :=
  Forall (fun c => Ascii.eqb c newline = false) s.

(** The number of lines on which [starts] holds. *)
Definition count_starts (starts : str -> bool) (lines : list str) : nat :=
  length (filter starts lines).

(** In a run, no line after the first is a starting line. *)
Definition quiet_tail (starts : str -> bool) (c : list str) : Prop :=
  Forall (fun l => starts l = false) (tl c).

(** The run opens on a starting line. *)
Definition start_headed (starts : str -> bool) (c : list str) : Prop :=
  exists h t, c = h :: t /\ starts h = true.

(** What one turn of the grouping loop can do to the groups: nothing, add
    a group for a new title key, or append a location or a description to
    the group inserted last. *)
Inductive turn (item : Extraction) : dict JobData -> dict JobData -> Prop :=
| turn_none : forall jobs, turn item jobs jobs
| turn_title : forall jobs,
    is_title item = true -> skipped item = false ->
    ~ In (title_key item) (dict_keys jobs) ->
    turn item jobs (jobs ++ [(title_key item, fresh_job (text_of item))])
| turn_location : forall d k g,
    is_location item = true -> skipped item = false ->
    text_of item <> [] -> ~ In (text_of item) (locations g) ->
    turn item (d ++ [(k, g)]) (d ++ [(k, append_location (text_of item) g)])
| turn_description : forall d k g,
    is_description item = true -> skipped item = false ->
    turn item (d ++ [(k, g)])
         (d ++ [(k, append_description (text_of item) g)]).

(** A title, location or description item that passes the denylist. *)
Definition accepted_title (item : Extraction) : bool :=
  is_title item && negb (skipped item).

Definition accepted_location (item : Extraction) : bool :=
  is_location item && negb (skipped item).

Definition accepted_description (item : Extraction) : bool :=
  is_description item && negb (skipped item).

(** Lines 237-249 of [main]: from the extractions to [filtered_jobs], the
    jobs that are displayed. *)
Definition main_filtered_jobs (extractions : list Extraction)
  : result (list Posting) :=
  jobs <- consolidate_jobs extractions ;;
  Ok (final_filtering jobs).

Section Similarity.
(** [SequenceMatcher(None, x, y).ratio()], of [difflib], is taken as given:
    any function of the two strings. *)
Variable R : Type.
Variable ratio : str -> str -> R.

(** [similarity] (lines 13-15) *)
Definition similarity (a b : str) : R :=
  ratio (strip (lower a)) (strip (lower b)).
End Similarity.

(** The locations of the group are pairwise distinct, none is blank, and
    each location and each description is the stripped text of an item of
    its class that passes the denylist. *)
Definition holds_accepted_texts (items : list Extraction) (g : JobData)
  : Prop :=
  NoDup (locations g)
  /\ (forall x, In x (locations g) ->
        x <> [] /\ exists item, In item items /\ accepted_location item = true
                                /\ text_of item = x)
  /\ (forall x, In x (descriptions g) ->
        exists item, In item items /\ accepted_description item = true
                     /\ text_of item = x).

(** The second list is the first one, possibly with one element written
    twice in a row. *)
Inductive doubled : list str -> list str -> Prop :=
| doubled_same : forall l, doubled l l
| doubled_twice : forall a d b, doubled (a ++ d :: b) (a ++ d :: d :: b).

(** Two job records that differ at most by a description collected twice
    in a row, and two dictionaries of such records under the same keys. *)
Definition job_alike (g g' : JobData) : Prop :=
  job_title g = job_title g' /\ locations g = locations g'
  /\ doubled (descriptions g) (descriptions g').

Definition dict_alike (j j' : dict JobData) : Prop :=
  Forall2 (fun e e' => fst e = fst e' /\ job_alike (snd e) (snd e')) j j'.
(** * Properties *)

Unset Implicit Arguments.

(** ** Characters *)

Ltac all_chars c :=
  destruct c as [[|] [|] [|] [|] [|] [|] [|] [|]]; vm_compute; reflexivity.

Lemma lower_char_idem (c : ascii) : lower_char (lower_char c) = lower_char c.
Proof. all_chars c. Qed.

Lemma is_space_lower_char (c : ascii) : is_space (lower_char c) = is_space c.
Proof. all_chars c. Qed.

Lemma is_word_lower_char (c : ascii) : is_word (lower_char c) = is_word c.
Proof. all_chars c. Qed.

(** ** The string model on concrete inputs

    Values of the Python expressions named on the left. *)

(** ["  Dev ".strip()] and ["DevOps Engineer".lower()] *)
Example strip_example : strip (py "  Dev ") = py "Dev".
Proof. reflexivity. Qed.

Example lower_example : lower (py "DevOps Engineer") = py "devops engineer".
Proof. reflexivity. Qed.

(** [re.split(r'[.!?]+', s)] for [s] in ["a.!?b."], the empty string and
    [".a"] *)
Example re_split_example :
  re_split_class is_terminator (py "a.!?b.") = [py "a"; py "b"; []]
  /\ re_split_class is_terminator [] = [[]]
  /\ re_split_class is_terminator (py ".a") = [[]; py "a"].
Proof. repeat split. Qed.

(** [re.sub(r'\W+', '', "must have 3-years exp")] *)
Example re_sub_example :
  re_sub_class is_nonword (py "must have 3-years exp") = py "musthave3yearsexp".
Proof. reflexivity. Qed.

(** [s.split('\n')] for two lines around a blank one, and for the empty
    string *)
Example split_lines_example :
  split_lines (py "a" ++ [newline; newline] ++ py "b") = [py "a"; []; py "b"]
  /\ split_lines [] = [[]].
Proof. split; reflexivity. Qed.

(** [re.search(r'(requirements?|...)', line, re.I)] on three lines *)
Example re_search_example :
  re_search requirement_pattern (py "Job REQUIREMENT list") = true
  /\ re_search requirement_pattern (py "requirements") = true
  /\ re_search requirement_pattern (py "Require") = false.
Proof. repeat split. Qed.

(** ** Equality and search on strings *)

Lemma str_eqb_eq (a b : str) : str_eqb a b = true <-> a = b.
Proof.
  revert b. induction a as [|x a IH]; intros [|y b]; simpl; split;
    intros H; try reflexivity; try discriminate.
  - apply andb_true_iff in H. destruct H as [Hxy Hab].
    apply Ascii.eqb_eq in Hxy. apply IH in Hab. congruence.
  - inversion H; subst. rewrite Ascii.eqb_refl. simpl. apply IH. reflexivity.
Qed.

Lemma str_eqb_refl (a : str) : str_eqb a a = true.
Proof. apply str_eqb_eq. reflexivity. Qed.

Lemma mem_In (x : str) (l : list str) : mem x l = true <-> In x l.
Proof.
  unfold mem. rewrite existsb_exists. split.
  - intros [y [Hy E]]. apply str_eqb_eq in E. subst. exact Hy.
  - intros H. exists x. split; [exact H | apply str_eqb_refl].
Qed.

Lemma mem_not_In (x : str) (l : list str) : mem x l = false <-> ~ In x l.
Proof.
  rewrite <- mem_In. destruct (mem x l); split; congruence.
Qed.

Lemma mem_app (x : str) (l1 l2 : list str) :
  mem x (l1 ++ l2) = mem x l1 || mem x l2.
Proof. apply existsb_app. Qed.

Lemma startswith_spec (p s : str) :
  startswith p s = true <-> exists t, s = p ++ t.
Proof.
  revert s. induction p as [|x p IH]; intros s; simpl.
  - split; [intros _; exists s; reflexivity | reflexivity].
  - destruct s as [|y s].
    + split; [discriminate | intros [t Ht]; discriminate].
    + rewrite andb_true_iff, Ascii.eqb_eq, IH. split.
      * intros [E [t Ht]]. exists t. congruence.
      * intros [t Ht]. inversion Ht; subst. split; [reflexivity | eauto].
Qed.


Lemma contains_spec (sub s : str) : contains sub s = true <-> occurs sub s.
Proof.
  unfold occurs. induction s as [|y s IH]; simpl.
  - rewrite orb_false_r, startswith_spec. split.
    + intros [t Ht]. exists [], t. exact Ht.
    + intros [a [b H]]. destruct a; [exists b; exact H | discriminate].
  - rewrite orb_true_iff, startswith_spec, IH. split.
    + intros [[t Ht] | [a [b H]]].
      * exists [], t. exact Ht.
      * exists (y :: a), b. simpl. congruence.
    + intros [[|z a] [b H]].
      * left. exists b. exact H.
      * right. inversion H; subst. eauto.
Qed.

Lemma endswith_snoc (s : str) (c : ascii) : endswith [c] (s ++ [c]) = true.
Proof.
  unfold endswith. rewrite rev_app_distr. simpl. rewrite Ascii.eqb_refl.
  reflexivity.
Qed.

Lemma endswith_char (c : ascii) (s : str) :
  endswith [c] s = true <-> exists t, s = t ++ [c].
Proof.
  unfold endswith. rewrite startswith_spec. simpl. split.
  - intros [t Ht]. exists (rev t).
    rewrite <- (rev_involutive s), Ht. simpl. reflexivity.
  - intros [t Ht]. subst. exists (rev t). rewrite rev_app_distr. reflexivity.
Qed.

(** ** [strip] *)

Lemma lstrip_lower (s : str) : lstrip (lower s) = lower (lstrip s).
Proof.
  induction s as [|c s IH]; simpl; [reflexivity|].
  rewrite is_space_lower_char. destruct (is_space c); [exact IH | reflexivity].
Qed.

Lemma lower_rev (s : str) : lower (rev s) = rev (lower s).
Proof. unfold lower. apply map_rev. Qed.

Lemma strip_lower (s : str) : strip (lower s) = lower (strip s).
Proof.
  unfold strip, rstrip.
  rewrite lstrip_lower, <- lower_rev, lstrip_lower, lower_rev. reflexivity.
Qed.

Lemma lstrip_idem (s : str) : lstrip (lstrip s) = lstrip s.
Proof.
  induction s as [|c s IH]; simpl; [reflexivity|].
  destruct (is_space c) eqn:E; [exact IH|]. simpl. rewrite E. reflexivity.
Qed.

(** What [lstrip] leaves is a suffix that does not start with a space. *)
Lemma lstrip_split (s : str) :
  exists ws, s = ws ++ lstrip s /\ Forall (fun c => is_space c = true) ws.
Proof.
  induction s as [|c s [ws [E F]]]; simpl.
  - exists []. split; [reflexivity | constructor].
  - destruct (is_space c) eqn:Hc.
    + exists (c :: ws). split; [simpl; congruence | constructor; assumption].
    + exists []. split; [reflexivity | constructor].
Qed.

Lemma lstrip_head (s : str) (c : ascii) (t : str) :
  lstrip s = c :: t -> is_space c = false.
Proof.
  induction s as [|x s IH]; simpl; [discriminate|].
  destruct (is_space x) eqn:E; [exact IH|]. intros H. inversion H; subst.
  exact E.
Qed.

Lemma lstrip_last (s t : str) (c : ascii) :
  is_space c = false -> lstrip (s ++ c :: t) = lstrip s ++ c :: t.
Proof.
  intros Hc. induction s as [|x s IH]; simpl.
  - rewrite Hc. reflexivity.
  - destruct (is_space x); [exact IH | reflexivity].
Qed.

Lemma rstrip_lstrip (s : str) : rstrip (lstrip s) = lstrip (rstrip s).
Proof.
  unfold rstrip.
  destruct (lstrip (rev s)) as [|c t] eqn:E.
  - simpl.
    assert (Hall : Forall (fun c => is_space c = true) s).
    { destruct (lstrip_split (rev s)) as [ws [Hs F]]. rewrite E, app_nil_r in Hs.
      rewrite <- (rev_involutive s), Hs. apply Forall_rev. exact F. }
    assert (Hl : lstrip s = []).
    { clear E. induction Hall as [|x l Hx _ IH]; simpl; [reflexivity|].
      rewrite Hx. exact IH. }
    rewrite Hl. reflexivity.
  - pose proof (lstrip_head _ _ _ E) as Hc.
    destruct (lstrip_split (rev s)) as [ws [Hs F]].
    assert (Es : s = rev t ++ c :: rev ws).
    { rewrite <- (rev_involutive s), Hs, E, rev_app_distr. simpl.
      rewrite <- app_assoc. reflexivity. }
    simpl. rewrite Es at 1. rewrite lstrip_last by exact Hc.
    rewrite rev_app_distr. simpl. rewrite rev_involutive.
    assert (Hws : forall u, lstrip (ws ++ c :: u) = c :: u).
    { clear Hs Es. intros u. induction F as [|x l Hx _ IH]; simpl.
      - rewrite Hc. reflexivity.
      - rewrite Hx. exact IH. }
    rewrite <- app_assoc. simpl. rewrite Hws. simpl.
    rewrite rev_involutive, lstrip_last by exact Hc. reflexivity.
Qed.

Lemma strip_idem (s : str) : strip (strip s) = strip s.
Proof.
  unfold strip. rewrite (rstrip_lstrip s), lstrip_idem.
  rewrite <- (rstrip_lstrip s).
  unfold rstrip at 1 2. rewrite rev_involutive, lstrip_idem. reflexivity.
Qed.

(** An occurrence of a word that neither starts nor ends with a space
    survives [strip], and [strip] creates no occurrence. *)
Lemma occurs_rev (sub s : str) : occurs sub s -> occurs (rev sub) (rev s).
Proof.
  intros [a [b H]]. exists (rev b), (rev a). subst.
  rewrite !rev_app_distr, app_assoc. reflexivity.
Qed.

Lemma occurs_lstrip (c : ascii) (t s : str) :
  is_space c = false -> occurs (c :: t) s -> occurs (c :: t) (lstrip s).
Proof.
  intros Hc [a [b H]]. subst s. induction a as [|x a IH]; simpl.
  - rewrite Hc. exists [], b. reflexivity.
  - destruct (is_space x); [exact IH|]. exists (x :: a), b. reflexivity.
Qed.

Lemma lstrip_occurs (sub s : str) : occurs sub (lstrip s) -> occurs sub s.
Proof.
  intros [a [b H]]. destruct (lstrip_split s) as [ws [E _]].
  exists (ws ++ a), b. rewrite E at 1. rewrite H, <- app_assoc. reflexivity.
Qed.

Lemma occurs_strip (sub s : str) :
  edges_nonspace sub = true -> occurs sub s -> occurs sub (strip s).
Proof.
  unfold edges_nonspace, strip, rstrip. intros He Ho.
  destruct sub as [|c t]; [discriminate|].
  destruct (rev (c :: t)) as [|d u] eqn:Er; [discriminate|].
  apply andb_true_iff in He. destruct He as [Hc Hd].
  apply negb_true_iff in Hc, Hd.
  apply (occurs_lstrip _ _ _ Hc) in Ho. apply occurs_rev in Ho. rewrite Er in Ho.
  apply (occurs_lstrip _ _ _ Hd) in Ho. apply occurs_rev in Ho.
  rewrite <- Er, rev_involutive in Ho. exact Ho.
Qed.

Lemma strip_occurs (sub s : str) : occurs sub (strip s) -> occurs sub s.
Proof.
  unfold strip, rstrip. intros H. apply lstrip_occurs.
  rewrite <- (rev_involutive sub), <- (rev_involutive (lstrip s)).
  apply occurs_rev. apply lstrip_occurs. apply occurs_rev in H.
  rewrite rev_involutive in H. exact H.
Qed.

(** ** The denylist *)

Lemma skip_terms_edges : Forall (fun t => edges_nonspace t = true) skip_terms.
Proof. apply Forall_forall. apply forallb_forall. vm_compute. reflexivity. Qed.

(** The test of line 156, made on the stripped text, is a test on the text
    as given: some term occurs in its lowercased form. *)
Lemma has_skip_term_strip (text : str) :
  has_skip_term (strip text) = true <->
  exists term, In term skip_terms /\ occurs term (lower text).
Proof.
  unfold has_skip_term. rewrite existsb_exists.
  split; intros [term [Hin H]]; exists term; (split; [exact Hin|]).
  - apply contains_spec in H. rewrite <- strip_lower in H.
    apply strip_occurs in H. exact H.
  - apply contains_spec. rewrite <- strip_lower. apply occurs_strip; [|exact H].
    exact (proj1 (Forall_forall _ _) skip_terms_edges term Hin).
Qed.

(** ** Dictionaries *)

Section DictFacts.
Variable V : Type.
Implicit Types (d : dict V) (k : str) (v : V).

Lemma dict_mem_In k d : dict_mem k d = true <-> In k (dict_keys d).
Proof. apply mem_In. Qed.

Lemma dict_mem_not_In k d : dict_mem k d = false <-> ~ In k (dict_keys d).
Proof. apply mem_not_In. Qed.

Lemma dict_keys_app d1 d2 : dict_keys (d1 ++ d2) = dict_keys d1 ++ dict_keys d2.
Proof. apply map_app. Qed.

(** Storing under a new key appends. *)
Lemma dict_set_new k v d :
  ~ In k (dict_keys d) -> dict_set k v d = d ++ [(k, v)].
Proof.
  induction d as [|[k' v'] d IH]; simpl; intros H; [reflexivity|].
  destruct (str_eqb k k') eqn:E.
  - apply str_eqb_eq in E. subst. exfalso. apply H. left. reflexivity.
  - rewrite IH; [reflexivity|]. intros Hin. apply H. right. exact Hin.
Qed.

(** Storing under the last key of a dictionary replaces the last value. *)
Lemma dict_set_last k v v' d :
  ~ In k (dict_keys d) -> dict_set k v' (d ++ [(k, v)]) = d ++ [(k, v')].
Proof.
  induction d as [|[k0 v0] d IH]; simpl; intros H.
  - rewrite str_eqb_refl. reflexivity.
  - destruct (str_eqb k k0) eqn:E.
    + apply str_eqb_eq in E. subst. exfalso. apply H. left. reflexivity.
    + rewrite IH; [reflexivity|]. intros Hin. apply H. right. exact Hin.
Qed.

Lemma dict_get_last k v d :
  ~ In k (dict_keys d) -> dict_get k (d ++ [(k, v)]) = Ok v.
Proof.
  induction d as [|[k0 v0] d IH]; simpl; intros H.
  - rewrite str_eqb_refl. reflexivity.
  - destruct (str_eqb k k0) eqn:E.
    + apply str_eqb_eq in E. subst. exfalso. apply H. left. reflexivity.
    + apply IH. intros Hin. apply H. right. exact Hin.
Qed.

Lemma dict_get_app_r k d1 d2 :
  ~ In k (dict_keys d1) -> dict_get k (d1 ++ d2) = dict_get k d2.
Proof.
  induction d1 as [|[k0 v0] d1 IH]; simpl; intros H; [reflexivity|].
  destruct (str_eqb k k0) eqn:E.
  - apply str_eqb_eq in E. subst. exfalso. apply H. left. reflexivity.
  - apply IH. intros Hin. apply H. right. exact Hin.
Qed.

Lemma last_item_snoc (A : Type) (l : list A) (x : A) :
  last_item (l ++ [x]) = Ok x.
Proof.
  induction l as [|y l IH]; simpl; [reflexivity|].
  rewrite IH. destruct (l ++ [x]) eqn:E; [|reflexivity].
  destruct l; discriminate.
Qed.

(** A non-empty dictionary has a last entry. *)
Lemma dict_last_entry d :
  nonempty d = true -> exists d' k v, d = d' ++ [(k, v)].
Proof.
  destruct d as [|e d]; [discriminate|]. intros _.
  destruct (exists_last (l := e :: d)) as [d' [[k v] E]]; [discriminate|].
  exists d', k, v. exact E.
Qed.
End DictFacts.


Lemma wf_snoc (V : Type) (d : dict V) (k : str) (v : V) :
  wf (d ++ [(k, v)]) <-> wf d /\ ~ In k (dict_keys d).
Proof.
  unfold wf. rewrite dict_keys_app. simpl. split.
  - intros H. apply NoDup_remove in H. rewrite app_nil_r in H. exact H.
  - intros [H1 H2]. apply NoDup_app.
    + exact H1.
    + constructor; [intros []|constructor].
    + intros x Hx [E|[]]. subst. contradiction.
Qed.

(** ** One turn of the grouping loop *)

Lemma class_cases (item : Extraction) :
  (is_title item = true -> is_location item = false /\ is_description item = false)
  /\ (is_location item = true -> is_title item = false /\ is_description item = false)
  /\ (is_description item = true -> is_title item = false /\ is_location item = false).
Proof.
  unfold is_title, is_location, is_description.
  repeat split; apply str_eqb_eq in H; rewrite H; reflexivity.
Qed.

Lemma nonempty_snoc (A : Type) (l : list A) (x : A) : nonempty (l ++ [x]) = true.
Proof. destruct l; reflexivity. Qed.

Lemma loop_body_skipped (jobs : dict JobData) (item : Extraction) :
  skipped item = true -> loop_body jobs item = Ok jobs.
Proof.
  unfold skipped, text_of, loop_body. intros H. rewrite H. reflexivity.
Qed.

Lemma loop_body_title_new (jobs : dict JobData) (item : Extraction) :
  skipped item = false -> is_title item = true ->
  ~ In (title_key item) (dict_keys jobs) ->
  loop_body jobs item
  = Ok (jobs ++ [(title_key item, fresh_job (text_of item))]).
Proof.
  intros Hs Ht Hk.
  unfold skipped, is_title, class_of, title_key, loop_body in *.
  unfold text_of in *. rewrite Hs, Ht.
  rewrite (proj2 (dict_mem_not_In _ _ _) Hk). simpl.
  rewrite dict_set_new by exact Hk. reflexivity.
Qed.

Lemma loop_body_title_seen (jobs : dict JobData) (item : Extraction) :
  is_title item = true -> In (title_key item) (dict_keys jobs) ->
  loop_body jobs item = Ok jobs.
Proof.
  intros Ht Hk. unfold is_title, class_of, title_key, loop_body in *.
  unfold text_of in *. destruct (has_skip_term _); [reflexivity|]. rewrite Ht.
  rewrite (proj2 (dict_mem_In _ _ _) Hk). reflexivity.
Qed.

Lemma loop_body_description (d : dict JobData) (k : str) (g : JobData)
  (item : Extraction) :
  wf (d ++ [(k, g)]) -> skipped item = false -> is_description item = true ->
  loop_body (d ++ [(k, g)]) item
  = Ok (d ++ [(k, append_description (text_of item) g)]).
Proof.
  intros Hwf Hs Hd. apply wf_snoc in Hwf. destruct Hwf as [_ Hk].
  destruct (class_cases item) as [_ [_ Hc]]. destruct (Hc Hd) as [Ht Hl].
  unfold skipped, text_of, is_title, is_location, is_description, class_of in *.
  unfold loop_body. rewrite Hs, Ht, Hl, Hd, nonempty_snoc.
  rewrite dict_keys_app. simpl. rewrite last_item_snoc. simpl.
  unfold dict_modify. rewrite dict_get_last by exact Hk. simpl.
  rewrite dict_set_last by exact Hk. reflexivity.
Qed.

Lemma loop_body_location (d : dict JobData) (k : str) (g : JobData)
  (item : Extraction) :
  wf (d ++ [(k, g)]) -> skipped item = false -> is_location item = true ->
  loop_body (d ++ [(k, g)]) item
  = Ok (d ++ [(k, if nonempty (text_of item)
                     && negb (mem (text_of item) (locations g))
                  then append_location (text_of item) g else g)]).
Proof.
  intros Hwf Hs Hl. apply wf_snoc in Hwf. destruct Hwf as [_ Hk].
  destruct (class_cases item) as [_ [Hc _]]. destruct (Hc Hl) as [Ht Hd].
  unfold skipped, text_of, is_title, is_location, is_description, class_of in *.
  unfold loop_body. rewrite Hs, Ht, Hl, nonempty_snoc.
  rewrite dict_keys_app. simpl. rewrite last_item_snoc. simpl.
  destruct (nonempty (strip (extraction_text item))); [|reflexivity].
  rewrite dict_get_last by exact Hk. simpl.
  destruct (mem _ (locations g)); [reflexivity|]. simpl.
  unfold dict_modify. rewrite dict_get_last by exact Hk. simpl.
  rewrite dict_set_last by exact Hk. reflexivity.
Qed.

Lemma loop_body_orphan (item : Extraction) :
  is_title item = false -> loop_body [] item = Ok [].
Proof.
  unfold is_title, class_of, loop_body. intros Ht.
  destruct (has_skip_term _); [reflexivity|]. rewrite Ht.
  destruct (str_eqb _ (py "location")); [reflexivity|].
  destruct (str_eqb _ (py "description")); reflexivity.
Qed.

Lemma loop_body_unknown (jobs : dict JobData) (item : Extraction) :
  is_title item = false -> is_location item = false ->
  is_description item = false -> loop_body jobs item = Ok jobs.
Proof.
  unfold is_title, is_location, is_description, class_of, loop_body.
  intros Ht Hl Hd. destruct (has_skip_term _); [reflexivity|].
  rewrite Ht, Hl, Hd. reflexivity.
Qed.

Lemma titles_app (d1 d2 : dict JobData) : titles (d1 ++ d2) = titles d1 ++ titles d2.
Proof. apply map_app. Qed.

Lemma titles_keys (d : dict JobData) : map fst (titles d) = dict_keys d.
Proof. unfold titles, dict_keys. rewrite map_map. reflexivity. Qed.

(** A turn never raises on a well-formed dictionary, keeps it well formed,
    and changes its (key, title) pairs as [created] says. *)
Lemma loop_body_titles (jobs : dict JobData) (item : Extraction) :
  wf jobs ->
  exists jobs',
    loop_body jobs item = Ok jobs' /\ wf jobs' /\
    titles jobs' = titles jobs ++ created (dict_keys jobs) [item].
Proof.
  intros Hwf. simpl.
  destruct (skipped item) eqn:Hs.
  { exists jobs. rewrite loop_body_skipped by exact Hs.
    rewrite andb_false_r, app_nil_r. auto. }
  destruct (is_title item) eqn:Ht.
  { simpl. destruct (mem (title_key item) (dict_keys jobs)) eqn:Hm; simpl.
    - apply mem_In in Hm. exists jobs.
      rewrite loop_body_title_seen, app_nil_r by assumption. auto.
    - apply mem_not_In in Hm. eexists.
      rewrite loop_body_title_new by assumption.
      split; [reflexivity|]. split; [apply wf_snoc; auto|].
      rewrite titles_app. reflexivity. }
  simpl. rewrite app_nil_r.
  destruct jobs as [|e jobs'] eqn:Ej.
  { exists []. rewrite loop_body_orphan by exact Ht. auto. }
  destruct (dict_last_entry _ (e :: jobs') eq_refl) as [d [k [g E]]].
  rewrite E in *. clear E Ej e jobs'.
  destruct (is_location item) eqn:Hl.
  { eexists. rewrite loop_body_location by assumption.
    split; [reflexivity|]. apply wf_snoc in Hwf.
    split; [apply wf_snoc; exact Hwf|].
    rewrite !titles_app. simpl. destruct (_ && _); reflexivity. }
  destruct (is_description item) eqn:Hd.
  { eexists. rewrite loop_body_description by assumption.
    split; [reflexivity|]. apply wf_snoc in Hwf.
    split; [apply wf_snoc; exact Hwf|].
    rewrite !titles_app. reflexivity. }
  exists (d ++ [(k, g)]). rewrite loop_body_unknown by assumption. auto.
Qed.

(** ** The grouping loop *)

Lemma group_loop_app (a b : list Extraction) (jobs : dict JobData) :
  group_loop (a ++ b) jobs = (jobs' <- group_loop a jobs ;; group_loop b jobs').
Proof.
  revert jobs. induction a as [|item a IH]; intros jobs; simpl; [reflexivity|].
  destruct (loop_body jobs item); simpl; [apply IH | reflexivity].
Qed.

Lemma created_app (seen : list str) (a b : list Extraction) :
  created seen (a ++ b)
  = created seen a ++ created (seen ++ map fst (created seen a)) b.
Proof.
  revert seen. induction a as [|item a IH]; intros seen; simpl.
  - rewrite app_nil_r. reflexivity.
  - destruct (_ && _); simpl; rewrite IH, <- ?app_assoc; reflexivity.
Qed.

Lemma created_In (seen : list str) (items : list Extraction) (k t : str) :
  In (k, t) (created seen items) ->
  exists item, In item items /\ is_title item = true /\ skipped item = false
               /\ title_key item = k /\ text_of item = t.
Proof.
  revert seen. induction items as [|item items IH]; intros seen; simpl.
  - intros [].
  - destruct (is_title item) eqn:Ht; simpl.
    2:{ intros H. destruct (IH _ H) as [x [Hx Hr]]. exists x. auto. }
    destruct (skipped item) eqn:Hs; simpl.
    { intros H. destruct (IH _ H) as [x [Hx Hr]]. exists x. auto. }
    destruct (mem (title_key item) seen); simpl.
    { intros H. destruct (IH _ H) as [x [Hx Hr]]. exists x. auto. }
    intros [H|H].
    + inversion H; subst. exists item. auto.
    + destruct (IH _ H) as [x [Hx Hr]]. exists x. auto.
Qed.

Lemma created_none (seen : list str) (items : list Extraction) :
  (forall m, In m items -> is_title m = true -> skipped m = false ->
             In (title_key m) seen) ->
  created seen items = [].
Proof.
  induction items as [|item items IH]; intros H; simpl; [reflexivity|].
  destruct (is_title item) eqn:Ht; simpl.
  2:{ apply IH. intros m Hm. apply H. right. exact Hm. }
  destruct (skipped item) eqn:Hs; simpl.
  { apply IH. intros m Hm. apply H. right. exact Hm. }
  rewrite (proj2 (mem_In _ _) (H item (or_introl eq_refl) Ht Hs)). simpl.
  apply IH. intros m Hm. apply H. right. exact Hm.
Qed.

Lemma created_fresh (seen : list str) (items : list Extraction) (k : str) :
  In k (map fst (created seen items)) -> ~ In k seen.
Proof.
  revert seen. induction items as [|item items IH]; intros seen; simpl.
  - intros [].
  - destruct (is_title item && negb (skipped item)); simpl; [|apply IH].
    destruct (mem (title_key item) seen) eqn:Hm; simpl; [apply IH|].
    intros [H|H].
    + subst. apply mem_not_In. exact Hm.
    + apply IH in H. intros Hk. apply H. apply in_or_app. left. exact Hk.
Qed.

(** The loop never raises; its result holds, after what it started with, one
    entry per created key, in the order of creation. *)
Lemma group_loop_titles (items : list Extraction) (jobs : dict JobData) :
  wf jobs ->
  exists jobs',
    group_loop items jobs = Ok jobs' /\ wf jobs' /\
    titles jobs' = titles jobs ++ created (dict_keys jobs) items.
Proof.
  revert jobs. induction items as [|item items IH]; intros jobs Hwf.
  - exists jobs. simpl. rewrite app_nil_r. auto.
  - destruct (loop_body_titles jobs item Hwf) as [j1 [E1 [W1 T1]]].
    destruct (IH j1 W1) as [j2 [E2 [W2 T2]]].
    exists j2. cbn [group_loop]. rewrite E1. cbn [bind]. split; [exact E2|].
    split; [exact W2|].
    rewrite T2, T1, <- app_assoc. f_equal.
    change (item :: items) with ([item] ++ items).
    rewrite created_app. f_equal. f_equal.
    rewrite <- titles_keys, T1, map_app, titles_keys. reflexivity.
Qed.

Lemma wf_nil : wf (@nil (str * JobData)).
Proof. constructor. Qed.

(** ** From groups to postings *)

Lemma consolidate_one_ok (job_data : JobData) :
  consolidate_one job_data = Ok (posting_of job_data).
Proof.
  unfold consolidate_one, posting_of.
  destruct (locations job_data); reflexivity.
Qed.

Lemma consolidate_loop_ok (jobs : dict JobData) (acc : list Posting) :
  consolidate_loop jobs acc = Ok (acc ++ postings_of jobs).
Proof.
  revert acc. induction jobs as [|[k g] jobs IH]; intros acc; simpl.
  - rewrite app_nil_r. reflexivity.
  - rewrite consolidate_one_ok. simpl. rewrite IH, <- app_assoc. reflexivity.
Qed.

(** [consolidate_jobs] returns: one posting per group, in insertion order. *)
Lemma consolidate_jobs_ok (items : list Extraction) :
  exists jobs,
    group_loop items [] = Ok jobs /\ wf jobs /\
    titles jobs = created [] items /\
    consolidate_jobs items = Ok (postings_of jobs).
Proof.
  destruct (group_loop_titles items [] wf_nil) as [jobs [E [W T]]].
  exists jobs. unfold consolidate_jobs. rewrite E. simpl.
  rewrite consolidate_loop_ok. auto.
Qed.

(** ** The denylist at ingestion *)

Lemma denylisted_skipped (item : Extraction) :
  denylisted item <-> skipped item = true.
Proof. unfold denylisted, skipped, text_of. symmetry. apply has_skip_term_strip. Qed.

Lemma has_skip_term_occurs (text : str) :
  has_skip_term text = true <->
  exists term, In term skip_terms /\ occurs term (lower text).
Proof.
  unfold has_skip_term. rewrite existsb_exists.
  split; intros [term [Hin H]]; exists term; (split; [exact Hin|]);
    apply contains_spec; exact H.
Qed.

(** No group is ever stored under a denylisted title. *)
Lemma created_titles_clean (seen : list str) (items : list Extraction) (k t : str) :
  In (k, t) (created seen items) -> has_skip_term t = false.
Proof.
  intros H. destruct (created_In _ _ _ _ H) as [x [_ [_ [Hs [_ Ht]]]]].
  subst t. exact Hs.
Qed.

Lemma postings_titles (jobs : dict JobData) :
  map title (postings_of jobs) = map snd (titles jobs).
Proof.
  unfold postings_of, titles. rewrite !map_map. reflexivity.
Qed.

Lemma posting_title_clean (items : list Extraction) :
  exists postings,
    consolidate_jobs items = Ok postings /\
    forall p, In p postings -> has_skip_term (title p) = false.
Proof.
  destruct (consolidate_jobs_ok items) as [jobs [_ [_ [T E]]]].
  exists (postings_of jobs). split; [exact E|]. intros p Hp.
  apply (in_map title) in Hp. rewrite postings_titles, T in Hp.
  apply in_map_iff in Hp. destruct Hp as [[k t] [Ht Hin]]. simpl in Ht.
  subst t. exact (created_titles_clean _ _ _ _ Hin).
Qed.

Lemma group_loop_drop (pre post : list Extraction) (item : Extraction) :
  (forall jobs, loop_body jobs item = Ok jobs) ->
  group_loop (pre ++ item :: post) [] = group_loop (pre ++ post) [].
Proof.
  intros H. rewrite !group_loop_app.
  destruct (group_loop pre []) as [jobs|e]; simpl; [|reflexivity].
  rewrite H. reflexivity.
Qed.

(** C8. A fragment of any class whose text contains, in any letter case,
    one of the denylist terms is skipped at ingestion: the turn of the loop
    leaves the groups as they are, the output is the one of the sequence
    without the fragment, and no posting of any sequence carries its text as
    title; so a title "Web Design Services" never appears in a posting. *)
Theorem denylisted_fragment_contributes_nothing
  (pre post : list Extraction) (item : Extraction) :
  denylisted item ->
  (forall jobs, loop_body jobs item = Ok jobs)
  /\ consolidate_jobs (pre ++ item :: post) = consolidate_jobs (pre ++ post)
  /\ (forall items, exists postings,
        consolidate_jobs items = Ok postings /\
        forall p, In p postings ->
                  title p <> extraction_text item /\ title p <> text_of item).
Proof.
  intros Hd.
  assert (Hskip : forall jobs, loop_body jobs item = Ok jobs).
  { intros jobs. apply loop_body_skipped. apply denylisted_skipped. exact Hd. }
  split; [exact Hskip|]. split.
  - unfold consolidate_jobs. rewrite (group_loop_drop pre post item Hskip).
    reflexivity.
  - intros items. destruct (posting_title_clean items) as [ps [E Hc]].
    exists ps. split; [exact E|]. intros p Hp. specialize (Hc p Hp).
    split; intros Heq; rewrite Heq in Hc.
    + apply (proj2 (has_skip_term_occurs _)) in Hd. congruence.
    + apply denylisted_skipped in Hd. unfold skipped in Hd. congruence.
Qed.

Lemma denylisted_fragment_contributes_nothing_witness :
  let item := extraction "title" "Web Design Services" in
  let pre := [extraction "title" "Data Engineer"] in
  let post := [extraction "description" "Builds the data pipelines."] in
  (forall jobs, loop_body jobs item = Ok jobs)
  /\ consolidate_jobs (pre ++ item :: post) = consolidate_jobs (pre ++ post)
  /\ (forall items, exists postings,
        consolidate_jobs items = Ok postings /\
        forall p, In p postings ->
                  title p <> py "Web Design Services"
                  /\ title p <> py "Web Design Services").
Proof.
  intros item pre post.
  apply (denylisted_fragment_contributes_nothing pre post item).
  exists (py "web design"). split.
  - apply mem_In. vm_compute. reflexivity.
  - apply contains_spec. vm_compute. reflexivity.
Defined.

(** ** Failure freedom, unknown classes and orphans *)

Lemma extract_job_sections_empty : extract_job_sections [] = [].
Proof. reflexivity. Qed.

(** C9, as amended.  The core raises nothing: segmenting the empty string
    gives no section; consolidating the empty sequence gives no posting;
    consolidating any sequence returns; a fragment whose lowercased class
    is none of title, location, description has no effect on the output;
    a location or description fragment met while no group exists is
    dropped. *)
Theorem core_raises_nothing
  (items pre post : list Extraction) (item : Extraction) :
  extract_job_sections [] = []
  /\ consolidate_jobs [] = Ok []
  /\ (exists postings, consolidate_jobs items = Ok postings)
  /\ (is_title item = false -> is_location item = false ->
      is_description item = false ->
      (forall jobs, loop_body jobs item = Ok jobs)
      /\ consolidate_jobs (pre ++ item :: post) = consolidate_jobs (pre ++ post))
  /\ (is_location item = true \/ is_description item = true ->
      group_loop pre [] = Ok [] ->
      group_loop (pre ++ [item]) [] = Ok []
      /\ consolidate_jobs (pre ++ item :: post) = consolidate_jobs (pre ++ post)).
Proof.
  split; [reflexivity|]. split; [reflexivity|]. split.
  { destruct (consolidate_jobs_ok items) as [jobs [_ [_ [_ E]]]]. eauto. }
  split.
  - intros Ht Hl Hd.
    assert (H : forall jobs, loop_body jobs item = Ok jobs).
    { intros jobs. apply loop_body_unknown; assumption. }
    split; [exact H|]. unfold consolidate_jobs.
    rewrite (group_loop_drop pre post item H). reflexivity.
  - intros Hc Hpre.
    assert (Ht : is_title item = false).
    { destruct (class_cases item) as [_ [H1 H2]].
      destruct Hc as [Hc|Hc]; [apply H1 | apply H2]; exact Hc. }
    split.
    + rewrite group_loop_app, Hpre. simpl.
      rewrite loop_body_orphan by exact Ht. reflexivity.
    + unfold consolidate_jobs. rewrite !group_loop_app, Hpre. simpl.
      rewrite loop_body_orphan by exact Ht. reflexivity.
Qed.

Lemma core_raises_nothing_witness :
  let items := grouping_example in
  let pre := [extraction "salary" "100k"] in
  let post := [extraction "title" "Data Engineer"] in
  (let item := extraction "salary" "Paid monthly" in
   consolidate_jobs (pre ++ item :: post) = consolidate_jobs (pre ++ post))
  /\ (let item := extraction "location" "Lahore" in
      group_loop (pre ++ [item]) [] = Ok []).
Proof.
  intros items pre post. split; intros item;
    destruct (core_raises_nothing items pre post item) as [_ [_ [_ [Hu Ho]]]].
  - apply Hu; reflexivity.
  - apply Ho; [left; reflexivity | reflexivity].
Defined.

(** The class of a fragment is compared after lowercasing (line 149): a
    fragment of class "Title", a string outside the three class names, is
    grouped as a title. *)
Lemma capitalised_class_is_not_ignored :
  let item := extraction "Title" "Data Engineer" in
  ~ In (extraction_class item) [py "title"; py "location"; py "description"]
  /\ consolidate_jobs [item]
     = Ok [ {| title := py "Data Engineer"; location := py "None";
               description := [] |} ]
  /\ consolidate_jobs [item] <> consolidate_jobs [].
Proof.
  simpl. split; [|split].
  - intros [H|[H|[H|[]]]]; discriminate H.
  - reflexivity.
  - vm_compute. discriminate.
Qed.

(** ** The grouping example *)

(** C7: the claim fails on the code.  The one posting has an empty merged
    description: the only sentence of "X." is "X", which is not longer
    than 10 characters and is dropped at line 197. *)
Lemma grouping_example_description_is_empty :
  exists p,
    consolidate_jobs grouping_example = Ok [p]
    /\ location p = py "Lahore"
    /\ description p = []
    /\ contains (py "X.") (description p) = false.
Proof. eexists. vm_compute. repeat split. Qed.

(** C7, as amended.  The example forms exactly one group, under the key
    "dev", with title "Dev", location "Lahore" and the collected
    description "X."; the posting made of it has location "Lahore" and an
    empty merged description. *)
Theorem grouping_example_result :
  group_loop grouping_example []
  = Ok [ (py "dev", {| job_title := py "Dev"; locations := [py "Lahore"];
                       descriptions := [py "X."] |}) ]
  /\ consolidate_jobs grouping_example
     = Ok [ {| title := py "Dev"; location := py "Lahore";
               description := [] |} ].
Proof. split; vm_compute; reflexivity. Qed.

(** ** Where locations and descriptions go *)


Lemma group_loop_snoc (pre : list Extraction) (item : Extraction)
  (jobs : dict JobData) :
  group_loop pre [] = Ok jobs ->
  group_loop (pre ++ [item]) [] = loop_body jobs item.
Proof.
  intros H. rewrite group_loop_app, H. simpl.
  destruct (loop_body jobs item); reflexivity.
Qed.



(** The key inserted last need not be the key of the title fragment met
    last: after the titles "Dev", "QA", "dev" the description goes to the
    group of "QA". *)
Example repeated_title_keeps_last_inserted_key :
  consolidate_jobs
    [extraction "title" "Dev"; extraction "title" "QA";
     extraction "title" "dev";
     extraction "description" "Builds internal tools"]
  = Ok [ {| title := py "Dev"; location := py "None"; description := [] |};
         {| title := py "QA"; location := py "None";
            description := py "Builds internal tools." |} ].
Proof. vm_compute. reflexivity. Qed.


Lemma created_keys_origin (pre : list Extraction) (t : Extraction) :
  (forall x, In x pre -> is_title x = true -> skipped x = false ->
             title_key x <> title_key t) ->
  ~ In (title_key t) (map fst (created [] pre)).
Proof.
  intros H Hin. apply in_map_iff in Hin. destruct Hin as [[k s] [Ek Hin]].
  simpl in Ek. subst k.
  destruct (created_In _ _ _ _ Hin) as [x [Hx [Ht [Hs [Hk _]]]]].
  exact (H x Hx Ht Hs Hk).
Qed.





(** ** Grouping of titles *)

Lemma title_key_lower_strip (t : Extraction) :
  title_key t = lower (strip (extraction_text t))
  /\ title_key t = strip (lower (extraction_text t)).
Proof.
  unfold title_key, text_of. rewrite strip_lower, strip_idem.
  split; [reflexivity | symmetry; apply strip_lower].
Qed.

Lemma dict_get_middle (V : Type) (d1 d2 : dict V) (k : str) (v : V) :
  ~ In k (dict_keys d1) -> dict_get k (d1 ++ (k, v) :: d2) = Ok v.
Proof.
  intros H. rewrite dict_get_app_r by exact H. simpl.
  rewrite str_eqb_refl. reflexivity.
Qed.

(** C2: the claim fails on the code.  Two title fragments with the same
    normalized key that contain a denylist term form no group and no
    posting; and the title of a posting is the trimmed text of the
    fragment, not the text as given. *)
Lemma denylisted_titles_form_no_group :
  let a := extraction "title" "Figma Designer" in
  let b := extraction "title" "figma designer " in
  (is_title a = true /\ is_title b = true /\ title_key a = title_key b
   /\ consolidate_jobs [a; b] = Ok [])
  /\ (let c := extraction "title" " Dev " in
      exists p, consolidate_jobs [c] = Ok [p]
                /\ title p = py "Dev" /\ title p <> extraction_text c).
Proof.
  simpl. split.
  - repeat split.
  - eexists. split; [vm_compute; reflexivity|]. split; [reflexivity|].
    vm_compute. discriminate.
Qed.

(** C2, as amended.  Titles are grouped under the lowercased, trimmed text.
    Let [t] be the first title fragment of its key and let it pass the
    denylist.  Then exactly one group has that key, every title fragment of
    that key is looked up to this one group, the posting made of it (at
    the same position) has for title the trimmed text of [t] in its original
    casing, and a title fragment whose key is already present leaves the
    groups unchanged.  A fragment whose text contains a denylist term
    leaves the groups unchanged too, so that it forms no group. *)
Theorem titles_group_by_normalized_key
  (pre post : list Extraction) (t : Extraction) :
  is_title t = true -> skipped t = false ->
  (forall x, In x pre -> is_title x = true -> skipped x = false ->
             title_key x <> title_key t) ->
  (title_key t = lower (strip (extraction_text t))
   /\ title_key t = strip (lower (extraction_text t)))
  /\ (exists jobs postings d1 g d2,
        group_loop (pre ++ t :: post) [] = Ok jobs
        /\ consolidate_jobs (pre ++ t :: post) = Ok postings
        /\ jobs = d1 ++ (title_key t, g) :: d2
        /\ ~ In (title_key t) (dict_keys d1)
        /\ ~ In (title_key t) (dict_keys d2)
        /\ job_title g = text_of t
        /\ (forall x, In x (pre ++ t :: post) -> is_title x = true ->
                      title_key x = title_key t ->
                      dict_get (title_key x) jobs = Ok g)
        /\ length postings = length jobs
        /\ exists p, nth_error postings (length d1) = Some p
                     /\ title p = text_of t)
  /\ (forall jobs x, is_title x = true ->
                     In (title_key x) (dict_keys jobs) ->
                     loop_body jobs x = Ok jobs)
  /\ (forall jobs x, denylisted x -> loop_body jobs x = Ok jobs).
Proof.
  intros Ht Hs Hnew. split; [apply title_key_lower_strip|]. split.
  2:{ split.
      - intros jobs x Hx Hk. apply loop_body_title_seen; assumption.
      - intros jobs x Hx. apply loop_body_skipped. apply denylisted_skipped.
        exact Hx. }
  destruct (consolidate_jobs_ok (pre ++ t :: post)) as [jobs [E [W [T C]]]].
  pose proof (created_keys_origin pre t Hnew) as Hfresh.
  rewrite created_app in T. simpl in T.
  rewrite Ht, Hs, (proj2 (mem_not_In _ _) Hfresh) in T. simpl in T.
  apply map_eq_app in T. destruct T as [d1 [r [Ej [T1 T2]]]].
  apply map_eq_cons in T2. destruct T2 as [[k g] [d2 [Er [Eg T2]]]].
  simpl in Eg. inversion Eg; subst k r jobs. clear Eg.
  assert (Hk : ~ In (title_key t) (dict_keys d1)
               /\ ~ In (title_key t) (dict_keys d2)).
  { unfold wf in W. rewrite dict_keys_app in W. simpl in W.
    pose proof (NoDup_remove_2 _ _ _ W) as Hn.
    split; intros Hin; apply Hn; apply in_or_app; auto. }
  destruct Hk as [Hk1 Hk2].
  exists (d1 ++ (title_key t, g) :: d2), (postings_of (d1 ++ (title_key t, g) :: d2)), d1, g, d2.
  repeat (split; [first [assumption | reflexivity]|]). split.
  { intros x _ _ Hx. rewrite Hx. apply dict_get_middle. exact Hk1. }
  split; [apply length_map|].
  exists (posting_of g). split; [|reflexivity].
  unfold postings_of. rewrite map_app. simpl.
  rewrite nth_error_app2; rewrite length_map; [|lia].
  rewrite Nat.sub_diag. reflexivity.
Qed.

Lemma titles_group_by_normalized_key_witness :
  let pre := [extraction "title" "QA Lead"] in
  let t := extraction "title" " Dev" in
  let post := [extraction "location" "Lahore"; extraction "title" "dev ";
               extraction "description" "X."] in
  exists jobs postings d1 g d2,
    group_loop (pre ++ t :: post) [] = Ok jobs
    /\ consolidate_jobs (pre ++ t :: post) = Ok postings
    /\ jobs = d1 ++ (title_key t, g) :: d2
    /\ ~ In (title_key t) (dict_keys d1)
    /\ ~ In (title_key t) (dict_keys d2)
    /\ job_title g = text_of t
    /\ (forall x, In x (pre ++ t :: post) -> is_title x = true ->
                  title_key x = title_key t ->
                  dict_get (title_key x) jobs = Ok g)
    /\ length postings = length jobs
    /\ exists p, nth_error postings (length d1) = Some p
                 /\ title p = text_of t.
Proof.
  intros pre t post.
  apply (titles_group_by_normalized_key pre post t); try reflexivity.
  intros x [Hx|[]] _ _. subst x. vm_compute. discriminate.
Defined.

(** ** The merged description *)

Lemma key_commute (s : str) :
  re_sub_class is_nonword (lower s) = spec_key s.
Proof.
  unfold spec_key, re_sub_class, lower, is_nonword.
  induction s as [|c s IH]; simpl; [reflexivity|].
  rewrite is_word_lower_char. destruct (is_word c); simpl; rewrite IH; reflexivity.
Qed.

Lemma mem_snoc (k x : str) (l : list str) :
  mem k (l ++ [x]) = mem k l || str_eqb k x.
Proof. rewrite mem_app. simpl. rewrite orb_false_r. reflexivity. Qed.

Lemma add_descriptions_flat (descs : list str) (st : list str * list str) :
  fold_left add_description descs st
  = fold_left add_sentence (flat_map (re_split_class is_terminator) descs) st.
Proof.
  revert st. induction descs as [|desc descs IH]; intros st; simpl.
  - reflexivity.
  - rewrite fold_left_app. apply IH.
Qed.

(** The loop over the sentences keeps the first occurrences: the set
    [seen] and the keys of the pieces met so far have the same members. *)
Lemma add_sentences_first (pieces all seen earlier : list str) :
  (forall k, mem k seen = mem k (map spec_key earlier)) ->
  fst (fold_left add_sentence pieces (all, seen))
  = all ++ first_occurrences earlier
             (filter (fun piece => negb (length piece <=? 10))
                     (map strip pieces)).
Proof.
  revert all seen earlier.
  induction pieces as [|p pieces IH]; intros all seen earlier Hseen; simpl.
  - rewrite app_nil_r. reflexivity.
  - rewrite Nat.ltb_antisym.
    destruct (negb (length (strip p) <=? 10)); simpl; [|apply IH; exact Hseen].
    rewrite key_commute, Hseen.
    destruct (mem (spec_key (strip p)) (map spec_key earlier)) eqn:Hm; simpl.
    + apply IH. intros k. rewrite map_app. cbn [map].
      rewrite mem_snoc, <- Hseen.
      destruct (str_eqb k (spec_key (strip p))) eqn:Ek;
        [|rewrite orb_false_r; reflexivity].
      apply str_eqb_eq in Ek. subst k. rewrite Hseen, Hm. reflexivity.
    + rewrite (IH _ _ (earlier ++ [strip p])).
      * rewrite <- app_assoc. reflexivity.
      * intros k. rewrite map_app. cbn [map].
        rewrite !mem_snoc, Hseen. reflexivity.
Qed.

(** The code and the wording give the same merged description. *)
Lemma combine_descriptions_spec (descs : list str) :
  combine_descriptions descs = spec_description descs.
Proof.
  unfold combine_descriptions, spec_description, spec_pieces.
  pose proof (add_sentences_first
                (flat_map (re_split_class is_terminator) descs) [] [] []
                (fun k => eq_refl)) as H.
  rewrite <- add_descriptions_flat in H.
  destruct (fold_left add_description descs ([], [])) as [all seen].
  simpl in H. rewrite H. reflexivity.
Qed.


(** ** Shape of the merged description *)

(** The fields of a split hold no character of the class; put end to end
    they are the string without the characters of the class. *)
Lemma split_runs_fields (cls : ascii -> bool) (s cur : str) (in_run : bool) :
  Forall (fun c => cls c = false) cur ->
  Forall (Forall (fun c => cls c = false)) (split_runs cls in_run cur s).
Proof.
  revert cur in_run. induction s as [|c s IH]; intros cur in_run Hcur; simpl.
  - constructor; [exact Hcur | constructor].
  - destruct (cls c) eqn:Hc.
    + destruct in_run.
      * apply IH. constructor.
      * constructor; [exact Hcur|]. apply IH. constructor.
    + apply IH. apply Forall_app. split; [exact Hcur|].
      constructor; [exact Hc | constructor].
Qed.

Lemma split_runs_concat (cls : ascii -> bool) (s cur : str) (in_run : bool) :
  (in_run = true -> cur = []) ->
  concat (split_runs cls in_run cur s) = cur ++ re_sub_class cls s.
Proof.
  revert cur in_run. induction s as [|c s IH]; intros cur in_run Hrun; simpl.
  - reflexivity.
  - destruct (cls c) eqn:Hc; simpl.
    + destruct in_run.
      * rewrite (Hrun eq_refl). apply IH. reflexivity.
      * simpl. rewrite IH; reflexivity.
    + rewrite IH by discriminate. rewrite <- app_assoc. reflexivity.
Qed.

Lemma lstrip_Forall (P : ascii -> Prop) (s : str) :
  Forall P s -> Forall P (lstrip s).
Proof.
  induction 1 as [|c s Hc Hs IH]; simpl; [constructor|].
  destruct (is_space c); [exact IH | constructor; assumption].
Qed.

Lemma strip_Forall (P : ascii -> Prop) (s : str) :
  Forall P s -> Forall P (strip s).
Proof.
  intros H. unfold strip, rstrip. apply Forall_rev. apply lstrip_Forall.
  apply Forall_rev. apply lstrip_Forall. exact H.
Qed.

Lemma first_occurrences_In (pieces earlier : list str) (x : str) :
  In x (first_occurrences earlier pieces) -> In x pieces.
Proof.
  revert earlier. induction pieces as [|p pieces IH]; intros earlier; simpl.
  - intros [].
  - destruct (mem _ _); simpl.
    + intros H. right. exact (IH _ H).
    + intros [H|H]; [left; exact H | right; exact (IH _ H)].
Qed.

Lemma spec_pieces_In (descs : list str) (x : str) :
  In x (spec_pieces descs) -> terminator_free x /\ 10 < length x.
Proof.
  unfold spec_pieces. intros H. apply filter_In in H. destruct H as [Hin Hlen].
  split.
  - apply in_map_iff in Hin. destruct Hin as [field [Ex Hf]]. subst x.
    apply strip_Forall. apply in_flat_map in Hf. destruct Hf as [desc [_ Hf]].
    unfold re_split_class in Hf.
    pose proof (split_runs_fields is_terminator desc [] false (Forall_nil _)) as HF.
    exact (proj1 (Forall_forall _ _) HF field Hf).
  - apply negb_true_iff, Nat.leb_gt in Hlen. exact Hlen.
Qed.

Lemma join_cons (sep x : str) (l : list str) :
  l <> [] -> join sep (x :: l) = x ++ sep ++ join sep l.
Proof. destruct l; [contradiction | reflexivity]. Qed.

Lemma join_last (sep : str) (l : list str) (x : str) :
  exists pre, join sep (l ++ [x]) = pre ++ x.
Proof.
  induction l as [|y l [pre IH]].
  - exists []. reflexivity.
  - exists (y ++ sep ++ pre). cbn [app]. rewrite join_cons, IH, <- !app_assoc.
    + reflexivity.
    + destruct l; discriminate.
Qed.

Lemma join_Forall (P : ascii -> Prop) (sep : str) (l : list str) :
  Forall P sep -> Forall (Forall P) l -> Forall P (join sep l).
Proof.
  intros Hsep. induction 1 as [|x l Hx Hl IH]; simpl; [constructor|].
  destruct l as [|y l]; [exact Hx|].
  apply Forall_app. split; [exact Hx|]. apply Forall_app. split; assumption.
Qed.

(** The survivors are never empty and hold no terminator, so the joined
    text never ends with a period and the final one is always added. *)
Lemma spec_description_shape (descs : list str) :
  exists sentences,
    Forall terminator_free sentences
    /\ spec_description descs
       = match sentences with
         | [] => []
         | _ :: _ => join (py ". ") sentences ++ py "."
         end.
Proof.
  unfold spec_description.
  remember (first_occurrences [] (spec_pieces descs)) as ss eqn:Ess.
  assert (Hss : forall x, In x ss -> terminator_free x /\ 10 < length x).
  { intros x Hx. apply (spec_pieces_In descs). rewrite Ess in Hx.
    exact (first_occurrences_In _ _ _ Hx). }
  clear Ess. exists ss. split.
  { apply Forall_forall. intros x Hx. exact (proj1 (Hss x Hx)). }
  destruct ss as [|s0 ss']; [reflexivity|].
  destruct (@exists_last _ (s0 :: ss')) as [l [x El]]; [discriminate|].
  rewrite El in *.
  destruct (Hss x) as [Hfree Hlen].
  { apply in_or_app. right. left. reflexivity. }
  destruct (@exists_last _ x) as [y [z Ex]].
  { intros Hx. rewrite Hx in Hlen. simpl in Hlen. lia. }
  destruct (join_last (py ". ") l x) as [pre Hj].
  rewrite Hj, Ex.
  assert (Hz : is_terminator z = false).
  { rewrite Ex in Hfree. apply Forall_app in Hfree. destruct Hfree as [_ Hz].
    inversion Hz; assumption. }
  assert (Hne : nonempty (pre ++ y ++ [z]) = true).
  { destruct pre; [destruct y|]; reflexivity. }
  assert (Hend : endswith (py ".") (pre ++ y ++ [z]) = false).
  { destruct (endswith (py ".") (pre ++ y ++ [z])) eqn:He; [|reflexivity].
    apply endswith_char in He. destruct He as [u Hu].
    rewrite app_assoc in Hu. apply app_inj_tail in Hu. destruct Hu as [_ Hu].
    subst z. discriminate Hz. }
  rewrite Hne, Hend. simpl. reflexivity.
Qed.

Lemma terminator_free_plain (s : str) :
  terminator_free s -> ~ In "!"%char s /\ ~ In "?"%char s.
Proof.
  intros H. split; intros Hin;
    apply (proj1 (Forall_forall _ _) H) in Hin; discriminate Hin.
Qed.

Lemma description_shape (descs : list str) :
  let d := combine_descriptions descs in
  (d = [] \/ exists s, d = s ++ py ".")
  /\ ~ In "!"%char d /\ ~ In "?"%char d
  /\ exists sentences,
       Forall terminator_free sentences
       /\ d = match sentences with
              | [] => []
              | _ :: _ => join (py ". ") sentences ++ py "."
              end.
Proof.
  simpl. rewrite combine_descriptions_spec.
  destruct (spec_description_shape descs) as [ss [Hfree E]].
  rewrite E. clear E.
  set (plain := fun c : ascii => c <> "!"%char /\ c <> "?"%char).
  assert (Hj : Forall plain (join (py ". ") ss)).
  { apply join_Forall.
    - repeat constructor; discriminate.
    - apply Forall_forall. intros x Hx. apply Forall_forall. intros c Hc.
      pose proof (proj1 (Forall_forall _ _) Hfree x Hx) as Hx'.
      destruct (terminator_free_plain x Hx') as [H1 H2].
      split; intros Ec; subst c; contradiction. }
  destruct ss as [|s0 ss'].
  - split; [left; reflexivity|]. split; [intros []|]. split; [intros []|].
    exists []. split; [constructor | reflexivity].
  - split; [right; eexists; reflexivity|].
    assert (Hall : Forall plain (join (py ". ") (s0 :: ss') ++ py ".")).
    { apply Forall_app. split; [exact Hj|].
      repeat constructor; discriminate. }
    split; [|split].
    + intros Hin. apply (proj1 (Forall_forall _ _) Hall) in Hin.
      destruct Hin as [Hin _]. apply Hin. reflexivity.
    + intros Hin. apply (proj1 (Forall_forall _ _) Hall) in Hin.
      destruct Hin as [_ Hin]. apply Hin. reflexivity.
    + exists (s0 :: ss'). split; [exact Hfree | reflexivity].
Qed.

(** C10. Every posting the Consolidator returns has a description that is
    empty or ends with a period, and that holds neither '!' nor '?': it is
    made of sentences free of terminators, joined with ". " and closed by a
    final ".". *)
Theorem descriptions_end_with_period (items : list Extraction) :
  exists postings,
    consolidate_jobs items = Ok postings
    /\ forall p, In p postings ->
         (description p = [] \/ exists s, description p = s ++ py ".")
         /\ ~ In "!"%char (description p)
         /\ ~ In "?"%char (description p)
         /\ exists sentences,
              Forall terminator_free sentences
              /\ description p
                 = match sentences with
                   | [] => []
                   | _ :: _ => join (py ". ") sentences ++ py "."
                   end.
Proof.
  destruct (consolidate_jobs_ok items) as [jobs [_ [_ [_ C]]]].
  exists (postings_of jobs). split; [exact C|]. intros p Hp.
  unfold postings_of in Hp. apply in_map_iff in Hp.
  destruct Hp as [[k g] [Ep _]]. subst p. simpl.
  apply description_shape.
Qed.

Lemma descriptions_end_with_period_witness :
  let items := [extraction "title" "Data Engineer";
                extraction "description"
                  "Builds the data pipelines! Owns the warehouse? yes."] in
  exists postings,
    consolidate_jobs items = Ok postings
    /\ forall p, In p postings ->
         (description p = [] \/ exists s, description p = s ++ py ".")
         /\ ~ In "!"%char (description p)
         /\ ~ In "?"%char (description p)
         /\ exists sentences,
              Forall terminator_free sentences
              /\ description p
                 = match sentences with
                   | [] => []
                   | _ :: _ => join (py ". ") sentences ++ py "."
                   end.
Proof.
  intros items. apply (descriptions_end_with_period items).
Defined.

(** ** The Filter *)

Lemma filter_loop (jobs acc : list Posting) :
  fold_left filter_step jobs acc = acc ++ filter keeps jobs.
Proof.
  revert acc. induction jobs as [|job jobs IH]; intros acc; simpl.
  - rewrite app_nil_r. reflexivity.
  - rewrite IH. unfold filter_step, keeps.
    destruct (existsb _ job_title_keywords); simpl; [|reflexivity].
    destruct (50 <? length (description job)); simpl; [|reflexivity].
    rewrite <- app_assoc. reflexivity.
Qed.

Lemma keeps_spec (job : Posting) :
  keeps job = true <-> has_role_keyword job /\ 50 < length (description job).
Proof.
  unfold keeps, has_role_keyword.
  rewrite andb_true_iff, existsb_exists, Nat.ltb_lt.
  split; intros [[kw [Hin H]] Hlen]; (split; [|exact Hlen]); exists kw;
    (split; [exact Hin|]); apply contains_spec; exact H.
Qed.

(** C4. The Filter keeps a posting exactly when its lowercased title
    contains a role keyword and its description has more than 50
    characters: 50 characters are not enough, 51 are.  The result is the
    input with the other postings removed, so the postings kept are
    unchanged and in the order of the input. *)
Theorem filter_keeps_role_titles_with_long_descriptions
  (jobs : list Posting) (p : Posting) :
  (In p (final_filtering jobs)
   <-> In p jobs /\ has_role_keyword p /\ 50 < length (description p))
  /\ final_filtering jobs = filter keeps jobs
  /\ (length (description p) = 50 -> ~ In p (final_filtering jobs))
  /\ (length (description p) = 51 -> has_role_keyword p -> In p jobs ->
      In p (final_filtering jobs)).
Proof.
  assert (E : final_filtering jobs = filter keeps jobs).
  { unfold final_filtering. apply (filter_loop jobs []). }
  assert (I : In p (final_filtering jobs)
              <-> In p jobs /\ has_role_keyword p /\ 50 < length (description p)).
  { rewrite E, filter_In, keeps_spec. reflexivity. }
  split; [exact I|]. split; [exact E|]. split.
  - intros H50 Hin. apply I in Hin. lia.
  - intros H51 Hk Hin. apply I. split; [exact Hin|]. split; [exact Hk | lia].
Qed.

Lemma filter_keeps_role_titles_with_long_descriptions_witness :
  let long := py "Designs, builds and operates our billing platforms." in
  let p50 := {| title := py "Software Engineer"; location := py "None";
                description := firstn 50 long |} in
  let p51 := {| title := py "Software Engineer"; location := py "None";
                description := long |} in
  ~ In p50 (final_filtering [p50; p51])
  /\ In p51 (final_filtering [p50; p51]).
Proof.
  intros long p50 p51. split.
  - apply (filter_keeps_role_titles_with_long_descriptions [p50; p51] p50).
    reflexivity.
  - apply (filter_keeps_role_titles_with_long_descriptions [p50; p51] p51).
    + reflexivity.
    + exists (py "engineer"). split.
      * apply mem_In. vm_compute. reflexivity.
      * apply contains_spec. vm_compute. reflexivity.
    + right. left. reflexivity.
Defined.

(** ** Searching for a pattern *)

Lemma matches_here_lit (w s : str) :
  matches_here (lit w) s = startswith (lower w) (lower s).
Proof.
  unfold matches_here. revert s. induction w as [|c w IH]; intros s.
  - reflexivity.
  - destruct s as [|x s]; [reflexivity|]. simpl. unfold ci_eqb.
    rewrite (Ascii.eqb_sym (lower_char c)).
    destruct (Ascii.eqb (lower_char x) (lower_char c)); [|reflexivity].
    simpl. rewrite app_nil_r. apply IH.
Qed.

Lemma matches_here_alt (r1 r2 : regex) (s : str) :
  matches_here (Alt r1 r2) s = matches_here r1 s || matches_here r2 s.
Proof.
  unfold matches_here. simpl. destruct (rmatch r1 s); reflexivity.
Qed.

(** Under [re.I], searching for a literal word is searching for its
    lowercase form in the lowercased line. *)
Lemma re_search_lit (w s : str) :
  re_search (lit w) s = contains (lower w) (lower s).
Proof.
  induction s as [|x s IH]; simpl.
  - rewrite matches_here_lit. reflexivity.
  - rewrite matches_here_lit, IH. reflexivity.
Qed.

Lemma re_search_alt (r1 r2 : regex) (s : str) :
  re_search (Alt r1 r2) s = re_search r1 s || re_search r2 s.
Proof.
  induction s as [|x s IH]; simpl.
  - rewrite matches_here_alt, !orb_false_r. reflexivity.
  - rewrite matches_here_alt, IH.
    destruct (matches_here r1 (x :: s)), (matches_here r2 (x :: s)),
      (re_search r1 s); reflexivity.
Qed.

Lemma re_search_alts (r : regex) (rs : list regex) (s : str) :
  re_search (alts r rs) s = existsb (fun r' => re_search r' s) (r :: rs).
Proof.
  revert r. induction rs as [|r' rs IH]; intros r; simpl.
  - rewrite orb_false_r. reflexivity.
  - rewrite re_search_alt, IH. reflexivity.
Qed.

Lemma existsb_map (A B : Type) (f : B -> bool) (g : A -> B) (l : list A) :
  existsb f (map g l) = existsb (fun x => f (g x)) l.
Proof. induction l as [|x l IH]; simpl; [|rewrite IH]; reflexivity. Qed.

Lemma re_search_words (w : string) (ws : list string) (s : str) :
  re_search (words w ws) s
  = existsb (fun x => contains x (lower s))
            (map (fun x => lower (py x)) (w :: ws)).
Proof.
  unfold words. rewrite re_search_alts.
  change (lit (py w) :: map (fun x => lit (py x)) ws)
    with (map (fun x => lit (py x)) (w :: ws)).
  rewrite !existsb_map. generalize (w :: ws). intros l.
  induction l as [|x l IH]; simpl; [reflexivity|].
  rewrite re_search_lit, IH. reflexivity.
Qed.

(** ** The Segmenter *)

Lemma is_job_start_words (line : str) :
  is_job_start line
  = existsb (fun w => contains w (lower line)) section_start_words.
Proof.
  unfold is_job_start, is_job_start_with, job_patterns,
    title_pattern, opening_pattern.
  cbn [firstn existsb]. rewrite !re_search_words, orb_false_r.
  rewrite <- existsb_app. reflexivity.
Qed.

(** * Further properties of the code *)

(** ** The Segmenter: what the sections are made of *)

Lemma section_step_clean (patterns : list regex) (lines : list str)
  (st : list str * list str) :
  fold_left (section_step patterns) lines st
  = fold_left (section_step patterns) (filter nonempty (map strip lines)) st.
Proof.
  revert st. induction lines as [|l lines IH]; intros st; [reflexivity|].
  cbn [fold_left map filter].
  assert (E : section_step patterns st l = section_step patterns st (strip l)).
  { unfold section_step. destruct st as [secs cur]. rewrite strip_idem.
    reflexivity. }
  destruct (nonempty (strip l)) eqn:Hn.
  - cbn [fold_left]. rewrite <- E. apply IH.
  - rewrite IH. f_equal. unfold section_step. destruct st as [secs cur].
    rewrite Hn. reflexivity.
Qed.

(** On stripped, non-blank lines the loop cuts the lines as [chunk] does. *)
Lemma section_fold_chunk (patterns : list regex) (lines : list str)
  (secs cur : list str) :
  Forall (fun l => nonempty l = true /\ strip l = l) lines ->
  (let '(sections, current_section) :=
     fold_left (section_step patterns) lines (secs, cur) in
   if nonempty current_section
   then sections ++ [join [newline] current_section]
   else sections)
  = secs ++ map (join [newline]) (chunk (is_job_start_with patterns) cur lines).
Proof.
  intros H. revert secs cur.
  induction H as [|l lines [Hn Hs] _ IH]; intros secs cur.
  - simpl. destruct (nonempty cur); simpl; [|rewrite app_nil_r]; reflexivity.
  - cbn [fold_left chunk]. unfold section_step at 2. rewrite Hs, Hn.
    cbn [negb].
    destruct (is_job_start_with patterns l && nonempty cur).
    + rewrite IH. cbn [map]. rewrite <- app_assoc. reflexivity.
    + apply IH.
Qed.

Lemma clean_lines_clean (text : str) :
  Forall (fun l => nonempty l = true /\ strip l = l) (clean_lines text).
Proof.
  unfold clean_lines. apply Forall_forall. intros l Hl.
  apply filter_In in Hl. destruct Hl as [Hin Hn]. split; [exact Hn|].
  apply in_map_iff in Hin. destruct Hin as [x [Hx _]]. subst l.
  apply strip_idem.
Qed.

(** The sections are the runs of the clean lines, joined. *)
Lemma extract_job_sections_chunk (text : str) :
  extract_job_sections text
  = map (join [newline]) (chunk is_job_start [] (clean_lines text)).
Proof.
  unfold extract_job_sections, extract_job_sections_with, is_job_start.
  rewrite section_step_clean.
  exact (section_fold_chunk job_patterns _ [] [] (clean_lines_clean text)).
Qed.

(** *** Runs *)

Lemma chunk_concat (starts : str -> bool) (lines cur : list str) :
  concat (chunk starts cur lines) = cur ++ lines.
Proof.
  revert cur. induction lines as [|l lines IH]; intros cur; simpl.
  - destruct cur; simpl; rewrite ?app_nil_r; reflexivity.
  - destruct (starts l && nonempty cur); simpl; rewrite IH.
    + reflexivity.
    + rewrite <- app_assoc. reflexivity.
Qed.

Lemma chunk_In (starts : str -> bool) (lines cur c : list str) :
  In c (chunk starts cur lines) -> c <> [] /\ incl c (cur ++ lines).
Proof.
  revert cur. induction lines as [|l lines IH]; intros cur; simpl.
  - destruct cur as [|x cur]; simpl; [intros []|]. intros [H|[]]. subst c.
    split; [discriminate|]. rewrite app_nil_r. apply incl_refl.
  - destruct (starts l && nonempty cur) eqn:E; simpl.
    + apply andb_true_iff in E. destruct E as [_ E]. intros [H|H].
      * subst c. split; [destruct cur; [discriminate E | discriminate]|].
        apply incl_appl. apply incl_refl.
      * destruct (IH _ H) as [H1 H2]. split; [exact H1|].
        apply incl_appr. exact H2.
    + intros H. destruct (IH _ H) as [H1 H2]. split; [exact H1|].
      rewrite <- app_assoc in H2. exact H2.
Qed.

Lemma chunk_quiet (starts : str -> bool) (lines cur : list str) :
  quiet_tail starts cur ->
  Forall (quiet_tail starts) (chunk starts cur lines).
Proof.
  revert cur. induction lines as [|l lines IH]; intros cur Hc; simpl.
  - destruct (nonempty cur); constructor; [exact Hc | constructor].
  - destruct (starts l) eqn:Hl; simpl.
    + destruct cur as [|x cur]; simpl.
      * apply IH. constructor.
      * constructor; [exact Hc|]. apply IH. constructor.
    + apply IH. unfold quiet_tail in *. destruct cur as [|x cur]; simpl.
      * constructor.
      * apply Forall_app. split; [exact Hc|]. constructor; [exact Hl|constructor].
Qed.

Lemma chunk_heads (starts : str -> bool) (lines cur : list str) :
  cur <> [] ->
  exists ext rest,
    chunk starts cur lines = (cur ++ ext) :: rest
    /\ Forall (start_headed starts) rest
    /\ length rest = count_starts starts lines.
Proof.
  revert cur. induction lines as [|l lines IH]; intros cur Hc.
  - destruct cur as [|x cur]; [contradiction|]. exists [], [].
    rewrite app_nil_r. repeat split. constructor.
  - destruct cur as [|x cur]; [contradiction|]. cbn [chunk nonempty].
    rewrite andb_true_r. unfold count_starts. cbn [filter].
    destruct (starts l) eqn:Hl.
    + destruct (IH [l]) as [ext [rest [E [H1 H2]]]]; [discriminate|].
      exists [], (([l] ++ ext) :: rest). rewrite E, app_nil_r.
      split; [reflexivity|]. split.
      * constructor; [|exact H1]. exists l, ext. auto.
      * simpl. f_equal. exact H2.
    + destruct (IH ((x :: cur) ++ [l])) as [ext [rest [E [H1 H2]]]];
        [destruct cur; discriminate|].
      exists (l :: ext), rest. rewrite E, <- app_assoc. auto.
Qed.

(** *** Lines and line breaks *)

Lemma split_char_free (sep : ascii) (a cur : str) :
  Forall (fun c => Ascii.eqb c sep = false) a ->
  split_char sep cur a = [cur ++ a].
Proof.
  intros H. revert cur. induction H as [|c a Hc _ IH]; intros cur; simpl.
  - rewrite app_nil_r. reflexivity.
  - rewrite Hc, IH, <- app_assoc. reflexivity.
Qed.

Lemma split_char_sep (sep : ascii) (a b cur : str) :
  Forall (fun c => Ascii.eqb c sep = false) a ->
  split_char sep cur (a ++ sep :: b) = (cur ++ a) :: split_char sep [] b.
Proof.
  intros H. revert cur. induction H as [|c a Hc _ IH]; intros cur; simpl.
  - rewrite Ascii.eqb_refl, app_nil_r. reflexivity.
  - rewrite Hc, IH, <- app_assoc. reflexivity.
Qed.

Lemma split_char_fields (sep : ascii) (s cur : str) :
  Forall (fun c => Ascii.eqb c sep = false) cur ->
  Forall (Forall (fun c => Ascii.eqb c sep = false)) (split_char sep cur s).
Proof.
  revert cur. induction s as [|c s IH]; intros cur Hcur; simpl.
  - constructor; [exact Hcur | constructor].
  - destruct (Ascii.eqb c sep) eqn:Hc.
    + constructor; [exact Hcur|]. apply IH. constructor.
    + apply IH. apply Forall_app. split; [exact Hcur|].
      constructor; [exact Hc | constructor].
Qed.

(** Splitting undoes joining, for lines that hold no line break. *)
Lemma split_lines_join (lines : list str) :
  lines <> [] -> Forall newline_free lines ->
  split_lines (join [newline] lines) = lines.
Proof.
  unfold split_lines. intros Hne H. induction H as [|l lines Hl Hls IH].
  - contradiction.
  - destruct lines as [|l' lines].
    + simpl. rewrite split_char_free by exact Hl. reflexivity.
    + rewrite join_cons by discriminate. cbn [app].
      rewrite split_char_sep by exact Hl. cbn [app]. f_equal.
      apply IH. discriminate.
Qed.

Lemma clean_lines_newline_free (text : str) :
  Forall newline_free (clean_lines text).
Proof.
  unfold clean_lines. apply Forall_forall. intros l Hl.
  apply filter_In in Hl. destruct Hl as [Hin _].
  apply in_map_iff in Hin. destruct Hin as [x [Hx Hin]]. subst l.
  apply strip_Forall.
  exact (proj1 (Forall_forall _ _)
           (split_char_fields newline text [] (Forall_nil _)) x Hin).
Qed.

(** Every run of the clean lines is read back from its section. *)
Lemma run_lines (text : str) (c : list str) :
  In c (chunk is_job_start [] (clean_lines text)) ->
  split_lines (join [newline] c) = c
  /\ c <> []
  /\ Forall (fun l => nonempty l = true /\ strip l = l) c.
Proof.
  intros Hc. destruct (chunk_In _ _ _ _ Hc) as [Hne Hincl]. simpl in Hincl.
  assert (Hall : forall P : str -> Prop,
             Forall P (clean_lines text) -> Forall P c).
  { intros P HP. apply Forall_forall. intros l Hl.
    exact (proj1 (Forall_forall _ _) HP l (Hincl l Hl)). }
  split; [|split].
  - apply split_lines_join; [exact Hne|].
    apply Hall. apply clean_lines_newline_free.
  - exact Hne.
  - apply Hall. apply clean_lines_clean.
Qed.

Lemma sections_flat_lines (text : str) (runs : list (list str)) :
  (forall c, In c runs -> In c (chunk is_job_start [] (clean_lines text))) ->
  flat_map split_lines (map (join [newline]) runs) = concat runs.
Proof.
  induction runs as [|c runs IH]; intros H; simpl; [reflexivity|].
  destruct (run_lines text c (H c (or_introl eq_refl))) as [E _].
  rewrite E, IH; [reflexivity|]. intros c' Hc'. apply H. right. exact Hc'.
Qed.

Lemma sections_nil_iff (text : str) :
  extract_job_sections text = [] <-> clean_lines text = [].
Proof.
  rewrite extract_job_sections_chunk.
  destruct (clean_lines text) as [|l ls]; [split; reflexivity|].
  cbn [chunk nonempty]. rewrite andb_false_r. cbn [app].
  destruct (chunk_heads is_job_start ls [l]) as [ext [rest [E _]]];
    [discriminate|].
  rewrite E. split; discriminate.
Qed.

(** X1. The sections, read line by line, are the lines of the text,
    stripped, without the blank ones: no line is lost, repeated or moved. *)
Theorem sections_keep_every_line (text : str) :
  flat_map split_lines (extract_job_sections text) = clean_lines text.
Proof.
  rewrite extract_job_sections_chunk.
  rewrite (sections_flat_lines text) by auto.
  apply chunk_concat.
Qed.

(** X2. No section is empty, and every line of a section is non-blank and
    carries no space at either end. *)
Theorem sections_are_clean (text : str) (s : str) :
  In s (extract_job_sections text) ->
  s <> []
  /\ Forall (fun l => l <> [] /\ strip l = l) (split_lines s).
Proof.
  rewrite extract_job_sections_chunk. intros Hs.
  apply in_map_iff in Hs. destruct Hs as [c [Es Hc]]. subst s.
  destruct (run_lines text c Hc) as [E [Hne Hcl]]. rewrite E.
  assert (Hl : Forall (fun l => l <> [] /\ strip l = l) c).
  { apply Forall_forall. intros l Hl.
    destruct (proj1 (Forall_forall _ _) Hcl l Hl) as [Hn Hs].
    split; [|exact Hs]. intros El. subst l. discriminate Hn. }
  split; [|exact Hl].
  intros Ej. rewrite Ej in E. unfold split_lines in E. simpl in E.
  subst c. inversion Hl as [|x y [Hx _] _]. apply Hx. reflexivity.
Qed.

Lemma sections_are_clean_witness :
  let text := py "  About us  " ++ [newline; newline] ++ py "Hiring now " in
  let s := py "About us" in
  s <> [] /\ Forall (fun l => l <> [] /\ strip l = l) (split_lines s).
Proof.
  intros text s. apply (sections_are_clean text s).
  vm_compute. left. reflexivity.
Defined.

(** X3. A section-start line is always the first line of its section: in
    every section no line after the first is one, and every section after
    the first opens on one. *)
Theorem section_starts_head_their_sections (text : str) :
  Forall (fun s => quiet_tail is_job_start (split_lines s))
         (extract_job_sections text)
  /\ Forall (fun s => start_headed is_job_start (split_lines s))
            (tl (extract_job_sections text)).
Proof.
  rewrite extract_job_sections_chunk.
  set (runs := chunk is_job_start [] (clean_lines text)).
  assert (Hruns : forall c, In c runs ->
                            split_lines (join [newline] c) = c).
  { intros c Hc. exact (proj1 (run_lines text c Hc)). }
  split.
  - apply Forall_forall. intros s Hs. apply in_map_iff in Hs.
    destruct Hs as [c [Es Hc]]. subst s. rewrite (Hruns c Hc).
    assert (Hq : Forall (quiet_tail is_job_start) runs).
    { apply chunk_quiet. constructor. }
    exact (proj1 (Forall_forall _ _) Hq c Hc).
  - assert (Hh : Forall (start_headed is_job_start) (tl runs)).
    { unfold runs. destruct (clean_lines text) as [|l ls]; [constructor|].
      cbn [chunk nonempty]. rewrite andb_false_r. cbn [app].
      destruct (chunk_heads is_job_start ls [l]) as [ext [rest [E [H _]]]];
        [discriminate|].
      rewrite E. exact H. }
    destruct runs as [|c0 rest]; [constructor|]. simpl in *.
    apply Forall_forall. intros s Hs. apply in_map_iff in Hs.
    destruct Hs as [c [Es Hc]]. subst s.
    rewrite (Hruns c (or_intror Hc)).
    exact (proj1 (Forall_forall _ _) Hh c Hc).
Qed.

(** X4. There is no section exactly when every line is blank; otherwise
    there is one section, plus one for each section-start line after the
    first non-blank line. *)
Theorem section_count (text : str) :
  (extract_job_sections text = [] <-> clean_lines text = [])
  /\ (forall l ls, clean_lines text = l :: ls ->
        length (extract_job_sections text)
        = 1 + count_starts is_job_start ls).
Proof.
  split; [apply sections_nil_iff|].
  rewrite extract_job_sections_chunk.
  - intros l ls E. rewrite E. cbn [chunk nonempty].
    rewrite andb_false_r. cbn [app].
    destruct (chunk_heads is_job_start ls [l]) as [ext [rest [Ec [_ Hn]]]];
      [discriminate|].
    rewrite Ec. simpl. rewrite length_map, Hn. reflexivity.
Qed.

Lemma section_count_witness :
  let text := py "About us" ++ [newline] ++ py "Project Manager"
              ++ [newline] ++ py "Lahore" ++ [newline] ++ py "We are hiring" in
  length (extract_job_sections text) = 3.
Proof.
  intros text.
  apply (proj2 (section_count text) (py "About us")
           [py "Project Manager"; py "Lahore"; py "We are hiring"]).
  reflexivity.
Defined.

(** *** Segmenting again *)

Lemma clean_fixed (lines : list str) :
  Forall (fun l => nonempty l = true /\ strip l = l) lines ->
  filter nonempty (map strip lines) = lines.
Proof.
  induction 1 as [|l lines [Hn Hs] _ IH]; simpl; [reflexivity|].
  rewrite Hs, Hn, IH. reflexivity.
Qed.

Lemma chunk_quiet_single (starts : str -> bool) (lines cur : list str) :
  cur <> [] -> Forall (fun l => starts l = false) lines ->
  chunk starts cur lines = [cur ++ lines].
Proof.
  intros Hc H. revert cur Hc.
  induction H as [|l lines Hl _ IH]; intros cur Hc; simpl.
  - destruct cur; [contradiction|]. rewrite app_nil_r. reflexivity.
  - rewrite Hl. simpl. rewrite IH, <- app_assoc; [reflexivity|].
    destruct cur; discriminate.
Qed.

Lemma split_char_app (sep : ascii) (a b cur : str) :
  split_char sep cur (a ++ sep :: b)
  = split_char sep cur a ++ split_char sep [] b.
Proof.
  revert cur. induction a as [|c a IH]; intros cur; simpl.
  - rewrite Ascii.eqb_refl. reflexivity.
  - destruct (Ascii.eqb c sep); [rewrite IH; reflexivity | apply IH].
Qed.

Lemma split_lines_join_sections (sections : list str) :
  sections <> [] ->
  split_lines (join [newline] sections) = flat_map split_lines sections.
Proof.
  unfold split_lines. induction sections as [|s sections IH]; intros H.
  - contradiction.
  - destruct sections as [|s' sections].
    + simpl. rewrite app_nil_r. reflexivity.
    + rewrite join_cons by discriminate. cbn [app flat_map].
      rewrite split_char_app. f_equal. apply IH. discriminate.
Qed.

(** X5. Segmenting is stable: a section segmented alone comes back as that
    one section, and the sections joined by line breaks and segmented again
    come back unchanged. *)
Theorem segmenting_sections_again (text : str) :
  (forall s, In s (extract_job_sections text) -> extract_job_sections s = [s])
  /\ extract_job_sections (join [newline] (extract_job_sections text))
     = extract_job_sections text.
Proof.
  split.
  - intros s Hs. pose proof Hs as Hs'.
    rewrite extract_job_sections_chunk in Hs'.
    apply in_map_iff in Hs'. destruct Hs' as [c [Es Hc]].
    destruct (run_lines text c Hc) as [E [Hne Hcl]].
    assert (Hq : quiet_tail is_job_start c).
    { assert (H : Forall (quiet_tail is_job_start)
                    (chunk is_job_start [] (clean_lines text))).
      { apply chunk_quiet. constructor. }
      exact (proj1 (Forall_forall _ _) H c Hc). }
    rewrite extract_job_sections_chunk. unfold clean_lines.
    rewrite <- Es, E, (clean_fixed c Hcl).
    destruct c as [|h t]; [contradiction|]. cbn [chunk nonempty].
    rewrite andb_false_r. cbn [app].
    rewrite chunk_quiet_single; [reflexivity | discriminate | exact Hq].
  - rewrite !extract_job_sections_chunk. f_equal. f_equal.
    rewrite <- extract_job_sections_chunk.
    destruct (extract_job_sections text) as [|s0 ss] eqn:E.
    + symmetry. apply (proj1 (sections_nil_iff text)). exact E.
    + unfold clean_lines at 1.
      rewrite split_lines_join_sections by discriminate.
      rewrite <- E, extract_job_sections_chunk.
      rewrite (sections_flat_lines text) by auto. rewrite chunk_concat.
      apply clean_fixed. apply clean_lines_clean.
Qed.

Lemma segmenting_sections_again_witness :
  let text := py "About us" ++ [newline] ++ py " Project Manager "
              ++ [newline] ++ py "Lahore" in
  extract_job_sections (py "Project Manager" ++ [newline] ++ py "Lahore")
  = [py "Project Manager" ++ [newline] ++ py "Lahore"].
Proof.
  intros text.
  apply (proj1 (segmenting_sections_again text)).
  vm_compute. right. left. reflexivity.
Defined.

Lemma lower_idem (s : str) : lower (lower s) = lower s.
Proof.
  unfold lower. rewrite map_map. apply map_ext. intros c.
  apply lower_char_idem.
Qed.

(** ** The Consolidator: what the groups hold *)

Lemma loop_body_turn (jobs : dict JobData) (item : Extraction) :
  wf jobs ->
  exists jobs',
    loop_body jobs item = Ok jobs' /\ turn item jobs jobs' /\ wf jobs'.
Proof.
  intros Hwf.
  destruct (skipped item) eqn:Hs.
  { exists jobs. rewrite loop_body_skipped by exact Hs.
    split; [reflexivity|]. split; [constructor | exact Hwf]. }
  destruct (is_title item) eqn:Ht.
  { destruct (mem (title_key item) (dict_keys jobs)) eqn:Hm.
    - apply mem_In in Hm. exists jobs.
      rewrite loop_body_title_seen by assumption.
      split; [reflexivity|]. split; [constructor | exact Hwf].
    - apply mem_not_In in Hm. eexists.
      rewrite loop_body_title_new by assumption.
      split; [reflexivity|]. split; [constructor; assumption|].
      apply wf_snoc. auto. }
  destruct jobs as [|e jobs0] eqn:Ej.
  { exists []. rewrite loop_body_orphan by exact Ht.
    split; [reflexivity|]. split; [constructor | exact Hwf]. }
  destruct (dict_last_entry _ (e :: jobs0) eq_refl) as [d [k [g E]]].
  rewrite E in *. clear E Ej e jobs0.
  assert (Hwf' : forall g', wf (d ++ [(k, g')])).
  { intros g'. apply wf_snoc. apply wf_snoc in Hwf. exact Hwf. }
  destruct (is_location item) eqn:Hl.
  { eexists. rewrite loop_body_location by assumption.
    split; [reflexivity|].
    destruct (nonempty (text_of item)) eqn:Hn; simpl.
    - destruct (mem (text_of item) (locations g)) eqn:Hm; simpl.
      + split; [constructor | apply Hwf'].
      + split; [|apply Hwf']. constructor; try assumption.
        * intros E. rewrite E in Hn. discriminate Hn.
        * apply mem_not_In. exact Hm.
    - split; [constructor | apply Hwf']. }
  destruct (is_description item) eqn:Hd.
  { eexists. rewrite loop_body_description by assumption.
    split; [reflexivity|]. split; [constructor; assumption | apply Hwf']. }
  exists (d ++ [(k, g)]). rewrite loop_body_unknown by assumption.
  split; [reflexivity|]. split; [constructor | exact Hwf].
Qed.

(** A property that holds of no item and no group, and that every turn
    keeps, holds of what the grouping loop returns. *)
Lemma group_loop_invariant (P : list Extraction -> dict JobData -> Prop) :
  P [] [] ->
  (forall pre jobs item jobs',
     P pre jobs -> wf jobs -> turn item jobs jobs' -> P (pre ++ [item]) jobs') ->
  forall items jobs, group_loop items [] = Ok jobs -> P items jobs.
Proof.
  intros H0 Hstep items.
  induction items as [|item items IH] using rev_ind; intros jobs E.
  - simpl in E. inversion E; subst. exact H0.
  - destruct (group_loop_titles items [] wf_nil) as [j [Ej [Wj _]]].
    rewrite (group_loop_snoc items item j Ej) in E.
    destruct (loop_body_turn j item Wj) as [j' [E' [T _]]].
    rewrite E' in E. inversion E; subst.
    exact (Hstep items j item jobs (IH j Ej) Wj T).
Qed.

Lemma In_snoc_entry (d : dict JobData) (k k0 : str) (g g0 : JobData) :
  In (k0, g0) (d ++ [(k, g)]) <-> In (k0, g0) d \/ (k0 = k /\ g0 = g).
Proof.
  rewrite in_app_iff. simpl. split.
  - intros [H|[H|[]]]; [left; exact H | right; inversion H; auto].
  - intros [H|[H1 H2]]; [left; exact H | right; left; subst; reflexivity].
Qed.

Lemma holds_accepted_texts_more (pre more : list Extraction) (g : JobData) :
  holds_accepted_texts pre g -> holds_accepted_texts (pre ++ more) g.
Proof.
  intros [H1 [H2 H3]]. split; [exact H1|]. split.
  - intros x Hx. destruct (H2 x Hx) as [Hne [it [Hit Hr]]].
    split; [exact Hne|]. exists it. split; [|exact Hr].
    apply in_or_app. left. exact Hit.
  - intros x Hx. destruct (H3 x Hx) as [it [Hit Hr]].
    exists it. split; [|exact Hr]. apply in_or_app. left. exact Hit.
Qed.

(** The locations and descriptions a group holds. *)
Lemma groups_hold_accepted_texts (items : list Extraction) (jobs : dict JobData) :
  group_loop items [] = Ok jobs ->
  forall k g, In (k, g) jobs -> holds_accepted_texts items g.
Proof.
  revert items jobs.
  apply (group_loop_invariant
           (fun items jobs =>
              forall k g, In (k, g) jobs -> holds_accepted_texts items g)).
  - intros k g [].
  - intros pre jobs item jobs' IH _ T.
    assert (Hmono : forall k g, In (k, g) jobs ->
                                holds_accepted_texts (pre ++ [item]) g).
    { intros k g Hin. apply holds_accepted_texts_more. exact (IH k g Hin). }
    assert (Hitem : In item (pre ++ [item])).
    { apply in_or_app. right. left. reflexivity. }
    inversion T; subst; clear T.
    + exact Hmono.
    + intros k g Hin. apply In_snoc_entry in Hin.
      destruct Hin as [Hin|[_ Eg]]; [exact (Hmono k g Hin)|]. subst g.
      split; [constructor|]. split; intros x [].
    + intros k0 g0 Hin. apply In_snoc_entry in Hin.
      destruct Hin as [Hin|[Ek Eg]].
      * apply (Hmono k0 g0). apply In_snoc_entry. left. exact Hin.
      * subst k0 g0.
        destruct (Hmono k g) as [N [L D]];
          [apply In_snoc_entry; right; auto|].
        split; [|split]; simpl.
        -- apply NoDup_app; [exact N | repeat constructor; intros [] |].
           intros x Hx [E|[]]. subst x. contradiction.
        -- intros x Hx. apply in_app_or in Hx. destruct Hx as [Hx|[Hx|[]]].
           ++ exact (L x Hx).
           ++ subst x. split; [assumption|]. exists item.
              split; [exact Hitem|]. split; [|reflexivity].
              unfold accepted_location. rewrite H, H0. reflexivity.
        -- exact D.
    + intros k0 g0 Hin. apply In_snoc_entry in Hin.
      destruct Hin as [Hin|[Ek Eg]].
      * apply (Hmono k0 g0). apply In_snoc_entry. left. exact Hin.
      * subst k0 g0.
        destruct (Hmono k g) as [N [L D]];
          [apply In_snoc_entry; right; auto|].
        split; [exact N|]. split; [exact L|]. simpl.
        intros x Hx. apply in_app_or in Hx. destruct Hx as [Hx|[Hx|[]]].
        -- exact (D x Hx).
        -- subst x. exists item. split; [exact Hitem|]. split; [|reflexivity].
           unfold accepted_description. rewrite H, H0. reflexivity.
Qed.

(** X7. In every group the grouping loop builds, the locations are pairwise
    distinct and none is blank, and each location and each collected
    description is the stripped text of a fragment of that class in the
    input that passes the denylist. *)
Theorem groups_hold_only_accepted_texts (items : list Extraction) :
  exists jobs,
    group_loop items [] = Ok jobs
    /\ forall k g, In (k, g) jobs -> holds_accepted_texts items g.
Proof.
  destruct (consolidate_jobs_ok items) as [jobs [E _]].
  exists jobs. split; [exact E|].
  exact (groups_hold_accepted_texts items jobs E).
Qed.

Lemma groups_hold_only_accepted_texts_witness :
  exists jobs,
    group_loop grouping_example [] = Ok jobs
    /\ forall k g, In (k, g) jobs -> holds_accepted_texts grouping_example g.
Proof. apply (groups_hold_only_accepted_texts grouping_example). Defined.

(** X8. The location of a posting is never the empty string: it is "None"
    or the stripped text of a location fragment of the input that passes
    the denylist. *)
Theorem posting_location_is_none_or_accepted (items : list Extraction) :
  exists postings,
    consolidate_jobs items = Ok postings
    /\ forall p, In p postings ->
         location p <> []
         /\ (location p = py "None"
             \/ exists item, In item items /\ accepted_location item = true
                             /\ text_of item = location p).
Proof.
  destruct (consolidate_jobs_ok items) as [jobs [E [_ [_ C]]]].
  exists (postings_of jobs). split; [exact C|]. intros p Hp.
  unfold postings_of in Hp. apply in_map_iff in Hp.
  destruct Hp as [[k g] [Ep Hin]]. subst p. simpl.
  destruct (groups_hold_accepted_texts items jobs E k g Hin) as [_ [L _]].
  destruct (locations g) as [|x l].
  - split; [discriminate | left; reflexivity].
  - destruct (L x (or_introl eq_refl)) as [Hne Hit]. auto.
Qed.

Lemma posting_location_is_none_or_accepted_witness :
  exists postings,
    consolidate_jobs grouping_example = Ok postings
    /\ forall p, In p postings ->
         location p <> []
         /\ (location p = py "None"
             \/ exists item, In item grouping_example
                             /\ accepted_location item = true
                             /\ text_of item = location p).
Proof. apply (posting_location_is_none_or_accepted grouping_example). Defined.

(** ** The Consolidator: the titles of the postings *)

Lemma created_key_lower (seen : list str) (items : list Extraction) (k t : str) :
  In (k, t) (created seen items) -> k = lower t.
Proof.
  intros H. destruct (created_In _ _ _ _ H) as [x [_ [_ [_ [Hk Ht]]]]].
  subst k t. unfold text_of. apply (proj1 (title_key_lower_strip x)).
Qed.

Lemma postings_lower_titles (items : list Extraction) (jobs : dict JobData) :
  titles jobs = created [] items ->
  map (fun p => lower (title p)) (postings_of jobs) = dict_keys jobs.
Proof.
  intros T. rewrite <- titles_keys. unfold postings_of. rewrite map_map.
  assert (H : forall kt, In kt (titles jobs) -> fst kt = lower (snd kt)).
  { intros [k t] Hin. rewrite T in Hin. exact (created_key_lower _ _ _ _ Hin). }
  clear T. unfold titles in *. rewrite map_map.
  apply map_ext_in. intros [k g] Hin. simpl. symmetry.
  apply (H (k, job_title g)). apply in_map_iff. exists (k, g). auto.
Qed.

(** X9. No two postings have the same title up to letter case: the
    lowercased titles of the postings are pairwise distinct. *)
Theorem posting_titles_are_distinct (items : list Extraction) :
  exists postings,
    consolidate_jobs items = Ok postings
    /\ NoDup (map (fun p => lower (title p)) postings).
Proof.
  destruct (consolidate_jobs_ok items) as [jobs [_ [W [T C]]]].
  exists (postings_of jobs). split; [exact C|].
  rewrite (postings_lower_titles items jobs T). exact W.
Qed.

Lemma created_nil (seen : list str) (items : list Extraction) :
  created seen items = [] ->
  forall item, In item items -> accepted_title item = true ->
               In (title_key item) seen.
Proof.
  unfold accepted_title. revert seen.
  induction items as [|x items IH]; intros seen E item Hin Ha.
  - destruct Hin.
  - simpl in E.
    destruct (is_title x && negb (skipped x)) eqn:Hx; simpl in E.
    + destruct (mem (title_key x) seen) eqn:Hm; simpl in E; [|discriminate].
      destruct Hin as [Hin|Hin]; [subst; apply mem_In; exact Hm|].
      exact (IH seen E item Hin Ha).
    + destruct Hin as [Hin|Hin]; [subst; congruence|].
      exact (IH seen E item Hin Ha).
Qed.

Lemma created_length (seen : list str) (items : list Extraction) :
  length (created seen items) <= length (filter accepted_title items).
Proof.
  unfold accepted_title. revert seen.
  induction items as [|x items IH]; intros seen; simpl; [lia|].
  destruct (is_title x && negb (skipped x)); simpl.
  - destruct (mem (title_key x) seen); simpl.
    + specialize (IH seen). lia.
    + specialize (IH (seen ++ [title_key x])). lia.
  - apply IH.
Qed.

Lemma created_covers (seen : list str) (items : list Extraction)
  (item : Extraction) :
  In item items -> accepted_title item = true ->
  In (title_key item) (seen ++ map fst (created seen items)).
Proof.
  unfold accepted_title. revert seen.
  induction items as [|x items IH]; intros seen Hin Ha; [destruct Hin|].
  simpl. destruct Hin as [Hin|Hin].
  - subst x. rewrite Ha. simpl.
    destruct (mem (title_key item) seen) eqn:Hm; simpl.
    + apply in_or_app. left. apply mem_In. exact Hm.
    + apply in_or_app. right. left. reflexivity.
  - destruct (is_title x && negb (skipped x)); simpl.
    + destruct (mem (title_key x) seen) eqn:Hm; simpl.
      * exact (IH seen Hin Ha).
      * specialize (IH (seen ++ [title_key x]) Hin Ha).
        rewrite <- app_assoc in IH. exact IH.
    + exact (IH seen Hin Ha).
Qed.

(** X10. The Consolidator returns no posting exactly when no title
    fragment passes the denylist, and never more postings than there are
    such title fragments. *)
Theorem no_posting_without_accepted_title (items : list Extraction) :
  exists postings,
    consolidate_jobs items = Ok postings
    /\ (postings = []
        <-> forall item, In item items -> accepted_title item = false)
    /\ length postings <= length (filter accepted_title items).
Proof.
  destruct (consolidate_jobs_ok items) as [jobs [_ [_ [T C]]]].
  exists (postings_of jobs). split; [exact C|].
  assert (L : length (postings_of jobs) = length (created [] items)).
  { unfold postings_of. rewrite <- T. unfold titles.
    rewrite !length_map. reflexivity. }
  split.
  - split.
    + intros E item Hin. destruct (accepted_title item) eqn:Ha; [|reflexivity].
      rewrite E in L. simpl in L.
      assert (Ec : created [] items = []).
      { destruct (created [] items); [reflexivity | discriminate L]. }
      destruct (created_nil [] items Ec item Hin Ha).
    + intros H.
      assert (Ec : created [] items = []).
      { apply created_none. intros m Hm Ht Hs. specialize (H m Hm).
        unfold accepted_title in H. rewrite Ht, Hs in H. discriminate H. }
      rewrite Ec in L. destruct (postings_of jobs); [reflexivity | discriminate L].
  - rewrite L. apply created_length.
Qed.

Lemma no_posting_without_accepted_title_witness :
  consolidate_jobs [extraction "title" "Figma Designer";
                    extraction "location" "Lahore";
                    extraction "description" "Designs the product pages"]
  = Ok [].
Proof.
  destruct (no_posting_without_accepted_title
              [extraction "title" "Figma Designer";
               extraction "location" "Lahore";
               extraction "description" "Designs the product pages"])
    as [postings [E [[_ H] _]]].
  rewrite E. f_equal. apply H.
  intros item [Hi|[Hi|[Hi|[]]]]; subst item; reflexivity.
Defined.

(** X11. Every posting title is the stripped text of a title fragment of
    the input that passes the denylist, and every such title fragment has
    a posting whose lowercased title is its key. *)
Theorem posting_titles_come_from_accepted_titles (items : list Extraction) :
  exists postings,
    consolidate_jobs items = Ok postings
    /\ (forall p, In p postings ->
          exists item, In item items /\ accepted_title item = true
                       /\ title p = text_of item)
    /\ (forall item, In item items -> accepted_title item = true ->
          exists p, In p postings /\ lower (title p) = title_key item).
Proof.
  destruct (consolidate_jobs_ok items) as [jobs [_ [_ [T C]]]].
  exists (postings_of jobs). split; [exact C|]. split.
  - intros p Hp. apply (in_map title) in Hp. rewrite postings_titles, T in Hp.
    apply in_map_iff in Hp. destruct Hp as [[k t] [Et Hin]]. simpl in Et.
    subst t. destruct (created_In _ _ _ _ Hin) as [x [Hx [Ht [Hs [_ Hk]]]]].
    exists x. split; [exact Hx|]. split; [|symmetry; exact Hk].
    unfold accepted_title. rewrite Ht, Hs. reflexivity.
  - intros item Hin Ha.
    pose proof (created_covers [] items item Hin Ha) as Hc. simpl in Hc.
    apply in_map_iff in Hc. destruct Hc as [[k t] [Ek Hkt]]. simpl in Ek.
    subst k. pose proof (created_key_lower _ _ _ _ Hkt) as Hl.
    rewrite <- T in Hkt. unfold titles in Hkt. apply in_map_iff in Hkt.
    destruct Hkt as [[k g] [Eg Hg]]. simpl in Eg. inversion Eg; subst.
    exists (posting_of g). split.
    + unfold postings_of. apply in_map_iff. exists (title_key item, g). auto.
    + simpl. symmetry. exact Hl.
Qed.

Lemma posting_titles_come_from_accepted_titles_witness :
  exists postings,
    consolidate_jobs grouping_example = Ok postings
    /\ (forall p, In p postings ->
          exists item, In item grouping_example /\ accepted_title item = true
                       /\ title p = text_of item)
    /\ (forall item, In item grouping_example -> accepted_title item = true ->
          exists p, In p postings /\ lower (title p) = title_key item).
Proof. apply (posting_titles_come_from_accepted_titles grouping_example). Defined.

(** ** The Consolidator: more fragments *)

(** Once a group is no longer the last one, nothing changes it. *)
Lemma group_loop_frozen (more : list Extraction) (d e : dict JobData) :
  e <> [] -> wf (d ++ e) ->
  exists e', group_loop more (d ++ e) = Ok (d ++ e') /\ e' <> [].
Proof.
  revert e. induction more as [|item more IH]; intros e He Hwf.
  - exists e. auto.
  - destruct (loop_body_turn (d ++ e) item Hwf) as [j [E [T W]]].
    assert (Hj : exists e1, j = d ++ e1 /\ e1 <> []).
    { inversion T; subst.
      - exists e. auto.
      - exists (e ++ [(title_key item, fresh_job (text_of item))]).
        rewrite app_assoc. split; [reflexivity | destruct e; discriminate].
      - destruct (@exists_last _ e He) as [e0 [x Ee]]. subst e.
        rewrite app_assoc in H. apply app_inj_tail in H.
        destruct H as [Hd Hx]. subst d0.
        exists (e0 ++ [(k, append_location (text_of item) g)]).
        rewrite app_assoc. split; [reflexivity | destruct e0; discriminate].
      - destruct (@exists_last _ e He) as [e0 [x Ee]]. subst e.
        rewrite app_assoc in H. apply app_inj_tail in H.
        destruct H as [Hd Hx]. subst d0.
        exists (e0 ++ [(k, append_description (text_of item) g)]).
        rewrite app_assoc. split; [reflexivity | destruct e0; discriminate]. }
    destruct Hj as [e1 [Ej He1]]. subst j.
    destruct (IH e1 He1 W) as [e2 [E2 He2]].
    exists e2. simpl. rewrite E. simpl. auto.
Qed.

(** X12. Fragments that come later leave the earlier postings alone: with
    more fragments at the end of the input, every posting but the last is
    returned unchanged, at the same place, and no posting disappears. *)
Theorem later_fragments_keep_earlier_postings (items more : list Extraction) :
  exists postings postings' tail,
    consolidate_jobs items = Ok postings
    /\ consolidate_jobs (items ++ more) = Ok postings'
    /\ postings' = removelast postings ++ tail
    /\ length postings <= length postings'.
Proof.
  destruct (consolidate_jobs_ok items) as [jobs [E [W [_ C]]]].
  destruct (consolidate_jobs_ok (items ++ more)) as [jobs' [E' [_ [_ C']]]].
  rewrite group_loop_app, E in E'. simpl in E'.
  exists (postings_of jobs), (postings_of jobs').
  destruct jobs as [|e0 jobs0] eqn:Ej.
  - exists (postings_of jobs'). repeat split; try assumption. simpl. lia.
  - destruct (@exists_last _ (e0 :: jobs0)) as [d [x Ed]]; [discriminate|].
    rewrite Ed in *.
    destruct (group_loop_frozen more d [x]) as [e' [Ef He']];
      [discriminate | exact W |].
    rewrite Ef in E'. inversion E'; subst jobs'.
    exists (postings_of e'). split; [exact C|]. split; [exact C'|].
    unfold postings_of. rewrite !map_app. simpl. split.
    + rewrite removelast_last. reflexivity.
    + rewrite !length_app, !length_map. simpl.
      destruct e'; [contradiction | simpl; lia].
Qed.

(** ** The merged description: repetitions *)

Lemma spec_pieces_app (l1 l2 : list str) :
  spec_pieces (l1 ++ l2) = spec_pieces l1 ++ spec_pieces l2.
Proof.
  unfold spec_pieces. rewrite flat_map_app, map_app, filter_app. reflexivity.
Qed.

Lemma first_occurrences_app (l1 l2 earlier : list str) :
  first_occurrences earlier (l1 ++ l2)
  = first_occurrences earlier l1 ++ first_occurrences (earlier ++ l1) l2.
Proof.
  revert earlier. induction l1 as [|p l1 IH]; intros earlier; simpl.
  - rewrite app_nil_r. reflexivity.
  - rewrite IH, <- app_assoc. simpl.
    destruct (mem (spec_key p) (map spec_key earlier)); reflexivity.
Qed.

(** Only the keys of the earlier pieces matter. *)
Lemma first_occurrences_ext (l earlier earlier' : list str) :
  (forall k, mem k (map spec_key earlier) = mem k (map spec_key earlier')) ->
  first_occurrences earlier l = first_occurrences earlier' l.
Proof.
  revert earlier earlier'. induction l as [|p l IH]; intros e e' H; simpl.
  - reflexivity.
  - rewrite (H (spec_key p)).
    assert (H' : forall k, mem k (map spec_key (e ++ [p]))
                           = mem k (map spec_key (e' ++ [p]))).
    { intros k. rewrite !map_app, !mem_app, H. reflexivity. }
    rewrite (IH _ _ H'). reflexivity.
Qed.

Lemma first_occurrences_seen (l earlier : list str) :
  (forall x, In x l -> In (spec_key x) (map spec_key earlier)) ->
  first_occurrences earlier l = [].
Proof.
  revert earlier. induction l as [|p l IH]; intros e H; simpl; [reflexivity|].
  rewrite (proj2 (mem_In _ _) (H p (or_introl eq_refl))).
  apply IH. intros x Hx. rewrite map_app. apply in_or_app. left.
  apply H. right. exact Hx.
Qed.

Lemma mem_keys_absorb (A B : list str) (k : str) :
  (forall x, In x B -> In x A) ->
  mem k (map spec_key (A ++ B)) = mem k (map spec_key A).
Proof.
  intros H. rewrite map_app, mem_app.
  destruct (mem k (map spec_key B)) eqn:Hb; [|apply orb_false_r].
  apply mem_In in Hb. apply in_map_iff in Hb. destruct Hb as [x [Ex Hx]].
  assert (Ha : mem k (map spec_key A) = true).
  { apply mem_In. apply in_map_iff. exists x. auto. }
  rewrite Ha. reflexivity.
Qed.

Lemma first_occurrences_doubled (l l' : list str) :
  doubled l l' ->
  first_occurrences [] (spec_pieces l) = first_occurrences [] (spec_pieces l').
Proof.
  intros H. destruct H as [l|a d b]; [reflexivity|].
  change (a ++ d :: d :: b) with (a ++ [d] ++ [d] ++ b).
  change (a ++ d :: b) with (a ++ [d] ++ b).
  rewrite !spec_pieces_app.
  set (A := spec_pieces a). set (D := spec_pieces [d]).
  set (B := spec_pieces b).
  rewrite !first_occurrences_app. simpl. f_equal. f_equal.
  rewrite (first_occurrences_seen D (A ++ D)).
  - simpl. apply first_occurrences_ext. intros k. symmetry.
    apply mem_keys_absorb.
    intros x Hx. apply in_or_app. right. exact Hx.
  - intros x Hx. apply in_map. apply in_or_app. right. exact Hx.
Qed.

Lemma combine_descriptions_doubled (l l' : list str) :
  doubled l l' -> combine_descriptions l = combine_descriptions l'.
Proof.
  intros H. rewrite !combine_descriptions_spec. unfold spec_description.
  rewrite (first_occurrences_doubled l l' H). reflexivity.
Qed.

Lemma spec_pieces_In_desc (descs : list str) (d x : str) :
  In d descs -> In x (spec_pieces [d]) -> In x (spec_pieces descs).
Proof.
  intros Hd Hx. apply in_split in Hd. destruct Hd as [l1 [l2 E]]. subst descs.
  change (d :: l2) with ([d] ++ l2). rewrite !spec_pieces_app.
  apply in_or_app. right. apply in_or_app. left. exact Hx.
Qed.

(** X13. A description that the group has already collected changes
    nothing when it is collected again: the posting made of the group is
    the same. *)
Theorem repeated_description_changes_nothing (g : JobData) (d : str) :
  In d (descriptions g) ->
  consolidate_one (append_description d g) = consolidate_one g.
Proof.
  intros Hd. rewrite !consolidate_one_ok. unfold posting_of. simpl. f_equal.
  rewrite !combine_descriptions_spec. unfold spec_description.
  rewrite spec_pieces_app, first_occurrences_app. simpl.
  rewrite (first_occurrences_seen (spec_pieces [d])), app_nil_r; [reflexivity|].
  intros x Hx. apply in_map. exact (spec_pieces_In_desc _ d x Hd Hx).
Qed.

Lemma repeated_description_changes_nothing_witness :
  let g := {| job_title := py "Data Engineer"; locations := [];
              descriptions := [py "Builds the data pipelines.";
                               py "Owns the warehouse."] |} in
  consolidate_one (append_description (py "Builds the data pipelines.") g)
  = consolidate_one g.
Proof.
  intros g. apply (repeated_description_changes_nothing g).
  left. reflexivity.
Defined.

(** ** A fragment given twice in a row *)

Lemma doubled_snoc (l l' : list str) (x : str) :
  doubled l l' -> doubled (l ++ [x]) (l' ++ [x]).
Proof.
  intros [l0|a d b]; [constructor|].
  rewrite <- !app_assoc. simpl. constructor.
Qed.

Lemma job_alike_refl (g : JobData) : job_alike g g.
Proof. repeat split. constructor. Qed.

Lemma dict_alike_refl (j : dict JobData) : dict_alike j j.
Proof.
  induction j as [|e j IH]; constructor; [|exact IH].
  split; [reflexivity | apply job_alike_refl].
Qed.

Lemma dict_alike_keys (j j' : dict JobData) :
  dict_alike j j' -> dict_keys j = dict_keys j'.
Proof.
  induction 1 as [|e e' j j' [Hk _] _ IH]; simpl; [reflexivity|].
  rewrite Hk, IH. reflexivity.
Qed.

Lemma dict_alike_snoc (d d' : dict JobData) (k : str) (g g' : JobData) :
  dict_alike d d' -> job_alike g g' ->
  dict_alike (d ++ [(k, g)]) (d' ++ [(k, g')]).
Proof.
  intros Hd Hg. apply Forall2_app; [exact Hd|].
  constructor; [|constructor]. split; [reflexivity | exact Hg].
Qed.

Lemma dict_alike_snoc_inv (d : dict JobData) (k : str) (g : JobData)
  (j' : dict JobData) :
  dict_alike (d ++ [(k, g)]) j' ->
  exists d' g', j' = d' ++ [(k, g')] /\ dict_alike d d' /\ job_alike g g'.
Proof.
  intros H. apply Forall2_app_inv_l in H.
  destruct H as [d' [r [Hd [Hr E]]]]. inversion Hr as [|e e' l l' [Hk Hg] Hn];
    subst. inversion Hn; subst. destruct e' as [k' g']. simpl in *. subst k'.
  exists d', g'. auto.
Qed.

(** One turn keeps two dictionaries alike. *)
Lemma loop_body_alike (j j' : dict JobData) (item : Extraction) :
  wf j -> dict_alike j j' ->
  exists j1 j1',
    loop_body j item = Ok j1 /\ loop_body j' item = Ok j1'
    /\ wf j1 /\ dict_alike j1 j1'.
Proof.
  intros W A.
  assert (W' : wf j').
  { unfold wf. rewrite <- (dict_alike_keys j j' A). exact W. }
  destruct (skipped item) eqn:Hs.
  { exists j, j'. rewrite !loop_body_skipped by exact Hs. auto. }
  destruct (is_title item) eqn:Ht.
  { destruct (mem (title_key item) (dict_keys j)) eqn:Hm.
    - apply mem_In in Hm. exists j, j'.
      rewrite (loop_body_title_seen j item Ht Hm).
      rewrite (dict_alike_keys j j' A) in Hm.
      rewrite (loop_body_title_seen j' item Ht Hm). auto.
    - apply mem_not_In in Hm. eexists. eexists.
      rewrite (loop_body_title_new j item Hs Ht Hm).
      pose proof Hm as Hm'. rewrite (dict_alike_keys j j' A) in Hm'.
      rewrite (loop_body_title_new j' item Hs Ht Hm').
      split; [reflexivity|]. split; [reflexivity|].
      split; [apply wf_snoc; auto|].
      apply dict_alike_snoc; [exact A | apply job_alike_refl]. }
  destruct j as [|e j0] eqn:Ej.
  { inversion A; subst. exists [], [].
    rewrite loop_body_orphan by exact Ht. repeat split; auto. }
  destruct (dict_last_entry _ (e :: j0) eq_refl) as [d [k [g E]]].
  rewrite E in *. clear E Ej e j0.
  destruct (dict_alike_snoc_inv d k g j' A) as [d' [g' [Ej' [Ad Ag]]]].
  subst j'. destruct Ag as [Agt [Agl Agd]].
  assert (Wg : forall x, wf (d ++ [(k, x)])).
  { intros x. apply wf_snoc. apply wf_snoc in W. exact W. }
  destruct (is_location item) eqn:Hl.
  { eexists. eexists.
    rewrite (loop_body_location d k g item W Hs Hl).
    rewrite (loop_body_location d' k g' item W' Hs Hl).
    split; [reflexivity|]. split; [reflexivity|]. split; [apply Wg|].
    apply dict_alike_snoc; [exact Ad|]. rewrite <- Agl.
    destruct (_ && _); repeat split; simpl; congruence. }
  destruct (is_description item) eqn:Hd.
  { eexists. eexists.
    rewrite (loop_body_description d k g item W Hs Hd).
    rewrite (loop_body_description d' k g' item W' Hs Hd).
    split; [reflexivity|]. split; [reflexivity|]. split; [apply Wg|].
    apply dict_alike_snoc; [exact Ad|].
    repeat split; simpl; try assumption. apply doubled_snoc. exact Agd. }
  exists (d ++ [(k, g)]), (d' ++ [(k, g')]).
  rewrite !loop_body_unknown by assumption.
  split; [reflexivity|]. split; [reflexivity|]. split; [exact W | exact A].
Qed.

Lemma group_loop_alike (items : list Extraction) (j j' : dict JobData) :
  wf j -> dict_alike j j' ->
  exists r r',
    group_loop items j = Ok r /\ group_loop items j' = Ok r'
    /\ dict_alike r r'.
Proof.
  revert j j'. induction items as [|item items IH]; intros j j' W A.
  - exists j, j'. auto.
  - destruct (loop_body_alike j j' item W A) as [j1 [j1' [E [E' [W1 A1]]]]].
    destruct (IH j1 j1' W1 A1) as [r [r' [R [R' Ar]]]].
    exists r, r'. simpl. rewrite E, E'. simpl. auto.
Qed.

Lemma postings_of_alike (j j' : dict JobData) :
  dict_alike j j' -> postings_of j = postings_of j'.
Proof.
  induction 1 as [|e e' j j' [_ [Ht [Hl Hd]]] _ IH]; simpl; [reflexivity|].
  rewrite IH. f_equal. unfold posting_of.
  rewrite Ht, Hl, (combine_descriptions_doubled _ _ Hd). reflexivity.
Qed.

(** The same item a second time: the groups stay as they are, but for a
    description collected twice. *)
Lemma second_turn_alike (j j1 : dict JobData) (item : Extraction) :
  wf j -> loop_body j item = Ok j1 ->
  exists j2, loop_body j1 item = Ok j2 /\ wf j1 /\ dict_alike j1 j2.
Proof.
  intros W E. destruct (loop_body_turn j item W) as [j1' [E' [T W1]]].
  rewrite E in E'. inversion E'; subst j1'. clear E'.
  inversion T; subst.
  - exists j1. split; [exact E|]. split; [exact W1 | apply dict_alike_refl].
  - eexists. rewrite loop_body_title_seen; [| assumption |].
    + split; [reflexivity|]. split; [exact W1 | apply dict_alike_refl].
    + rewrite dict_keys_app. apply in_or_app. right. left. reflexivity.
  - eexists. rewrite loop_body_location by assumption.
    split; [reflexivity|]. split; [exact W1|].
    assert (Hm : mem (text_of item)
                     (locations (append_location (text_of item) g)) = true).
    { apply mem_In. simpl. apply in_or_app. right. left. reflexivity. }
    rewrite Hm, andb_false_r. apply dict_alike_refl.
  - eexists. rewrite loop_body_description by assumption.
    split; [reflexivity|]. split; [exact W1|].
    apply dict_alike_snoc; [apply dict_alike_refl|].
    repeat split. simpl.
    change (descriptions g ++ [text_of item])
      with (descriptions g ++ text_of item :: []).
    rewrite <- app_assoc. simpl. constructor.
Qed.

(** X14. A fragment given twice in a row counts once: the postings are
    those of the input with the second copy removed. *)
Theorem immediate_repetition_changes_nothing
  (pre post : list Extraction) (item : Extraction) :
  consolidate_jobs (pre ++ item :: item :: post)
  = consolidate_jobs (pre ++ item :: post).
Proof.
  unfold consolidate_jobs. rewrite !group_loop_app.
  destruct (group_loop_titles pre [] wf_nil) as [j [E [W _]]].
  rewrite E. cbn [bind group_loop].
  destruct (loop_body_turn j item W) as [j1 [E1 _]].
  destruct (second_turn_alike j j1 item W E1) as [j2 [E2 [W1 A]]].
  rewrite E1. cbn [bind]. rewrite E2. cbn [bind].
  destruct (group_loop_alike post j1 j2 W1 A) as [r [r' [R [R' Ar]]]].
  rewrite R, R'. cbn [bind]. rewrite !consolidate_loop_ok.
  rewrite (postings_of_alike r r' Ar). reflexivity.
Qed.

(** ** The merged description: where its sentences come from *)

Lemma occurs_refl (s : str) : occurs s s.
Proof. exists [], []. rewrite app_nil_r. reflexivity. Qed.

Lemma occurs_trans (a b c : str) : occurs a b -> occurs b c -> occurs a c.
Proof.
  intros [x [y E]] [u [v F]]. exists (u ++ x), (y ++ v). subst.
  rewrite <- !app_assoc. reflexivity.
Qed.

Lemma occurs_more (f s pre post : str) :
  occurs f s -> occurs f (pre ++ s ++ post).
Proof.
  intros H. apply (occurs_trans f s); [exact H|]. exists pre, post. reflexivity.
Qed.

(** Every field of a split is a part of the string. *)
Lemma split_runs_occurs (cls : ascii -> bool) (s cur f : str) (in_run : bool) :
  In f (split_runs cls in_run cur s) -> occurs f (cur ++ s).
Proof.
  revert cur in_run. induction s as [|c s IH]; intros cur in_run; simpl.
  - intros [H|[]]. subst f. rewrite app_nil_r. apply occurs_refl.
  - destruct (cls c).
    + assert (Hrest : In f (split_runs cls true [] s) -> occurs f (cur ++ c :: s)).
      { intros H. apply IH in H. simpl in H.
        apply (occurs_trans f s); [exact H|]. exists (cur ++ [c]), [].
        rewrite app_nil_r, <- app_assoc. reflexivity. }
      destruct in_run; [exact Hrest|].
      intros [H|H]; [|exact (Hrest H)]. subst f. exists [], (c :: s).
      reflexivity.
    + intros H. apply IH in H. rewrite <- app_assoc in H. exact H.
Qed.

Lemma spec_pieces_occurs (descs : list str) (x : str) :
  In x (spec_pieces descs) -> exists d, In d descs /\ occurs x d.
Proof.
  unfold spec_pieces. intros H. apply filter_In in H. destruct H as [H _].
  apply in_map_iff in H. destruct H as [f [Ex Hf]]. subst x.
  apply in_flat_map in Hf. destruct Hf as [d [Hd Hf]].
  exists d. split; [exact Hd|]. unfold re_split_class in Hf.
  apply split_runs_occurs in Hf. simpl in Hf.
  apply (occurs_trans _ f); [|exact Hf].
  apply strip_occurs. apply occurs_refl.
Qed.

Lemma first_occurrences_keys (l earlier : list str) :
  NoDup (map spec_key (first_occurrences earlier l))
  /\ forall x, In x (first_occurrences earlier l) ->
               ~ In (spec_key x) (map spec_key earlier).
Proof.
  revert earlier. induction l as [|p l IH]; intros e; simpl.
  - split; [constructor | intros x []].
  - destruct (IH (e ++ [p])) as [N F].
    assert (F' : forall x, In x (first_occurrences (e ++ [p]) l) ->
                   ~ In (spec_key x) (map spec_key e)
                   /\ spec_key x <> spec_key p).
    { intros x Hx. specialize (F x Hx). rewrite map_app in F. simpl in F.
      split; intros H; apply F; apply in_or_app;
        [left; exact H | right; left; symmetry; exact H]. }
    destruct (mem (spec_key p) (map spec_key e)) eqn:Hm.
    + split; [exact N|]. intros x Hx. exact (proj1 (F' x Hx)).
    + split.
      * simpl. constructor; [|exact N]. intros Hin.
        apply in_map_iff in Hin. destruct Hin as [x [Ex Hx]].
        exact (proj2 (F' x Hx) Ex).
      * intros x [Hx|Hx]; [subst x; apply mem_not_In; exact Hm|].
        exact (proj1 (F' x Hx)).
Qed.

Lemma spec_description_sentences (descs : list str) :
  spec_description descs
  = match first_occurrences [] (spec_pieces descs) with
    | [] => []
    | _ :: _ =>
        join (py ". ") (first_occurrences [] (spec_pieces descs)) ++ py "."
    end.
Proof.
  unfold spec_description.
  remember (first_occurrences [] (spec_pieces descs)) as ss eqn:Ess.
  assert (Hss : forall x, In x ss -> terminator_free x /\ 10 < length x).
  { intros x Hx. apply (spec_pieces_In descs). rewrite Ess in Hx.
    exact (first_occurrences_In _ _ _ Hx). }
  clear Ess. destruct ss as [|s0 ss']; [reflexivity|].
  destruct (@exists_last _ (s0 :: ss')) as [l [x El]]; [discriminate|].
  destruct (Hss x) as [Hfree Hlen].
  { rewrite El. apply in_or_app. right. left. reflexivity. }
  destruct (@exists_last _ x) as [y [z Ex]].
  { intros Hx. rewrite Hx in Hlen. simpl in Hlen. lia. }
  destruct (join_last (py ". ") l x) as [pre Hj].
  assert (Hz : is_terminator z = false).
  { rewrite Ex in Hfree. apply Forall_app in Hfree. destruct Hfree as [_ Hz].
    inversion Hz; assumption. }
  assert (Hne : nonempty (pre ++ y ++ [z]) = true).
  { destruct pre; [destruct y|]; reflexivity. }
  assert (Hend : endswith (py ".") (pre ++ y ++ [z]) = false).
  { destruct (endswith (py ".") (pre ++ y ++ [z])) eqn:He; [|reflexivity].
    apply endswith_char in He. destruct He as [u Hu].
    rewrite app_assoc in Hu. apply app_inj_tail in Hu. destruct Hu as [_ Hu].
    subst z. discriminate Hz. }
  rewrite El, Hj, Ex, Hne, Hend. reflexivity.
Qed.

(** X15. The description of a posting is made of sentences with pairwise
    distinct keys, each longer than 10 characters and each a part of the
    text of a description fragment of the input that passes the denylist:
    the Consolidator writes nothing of its own but ". " and the final
    ".". *)
Theorem description_sentences_come_from_input (items : list Extraction) :
  exists postings,
    consolidate_jobs items = Ok postings
    /\ forall p, In p postings ->
         exists sentences,
           description p
           = match sentences with
             | [] => []
             | _ :: _ => join (py ". ") sentences ++ py "."
             end
           /\ NoDup (map spec_key sentences)
           /\ forall s, In s sentences ->
                10 < length s
                /\ exists item, In item items
                                /\ accepted_description item = true
                                /\ occurs s (extraction_text item).
Proof.
  destruct (consolidate_jobs_ok items) as [jobs [E [_ [_ C]]]].
  exists (postings_of jobs). split; [exact C|]. intros p Hp.
  unfold postings_of in Hp. apply in_map_iff in Hp.
  destruct Hp as [[k g] [Ep Hin]]. subst p. simpl.
  destruct (groups_hold_accepted_texts items jobs E k g Hin) as [_ [_ D]].
  exists (first_occurrences [] (spec_pieces (descriptions g))).
  split; [|split].
  - rewrite combine_descriptions_spec. apply spec_description_sentences.
  - exact (proj1 (first_occurrences_keys _ [])).
  - intros s Hs. apply first_occurrences_In in Hs.
    split; [exact (proj2 (spec_pieces_In _ _ Hs))|].
    destruct (spec_pieces_occurs _ _ Hs) as [d [Hd Ho]].
    destruct (D d Hd) as [item [Hi [Ha Et]]]. exists item.
    split; [exact Hi|]. split; [exact Ha|]. subst d. unfold text_of in Ho.
    apply (occurs_trans _ _ _ Ho). apply strip_occurs. apply occurs_refl.
Qed.

Lemma description_sentences_come_from_input_witness :
  let items := [extraction "title" "Data Engineer";
                extraction "description"
                  "Builds the data pipelines! builds the data-pipelines."] in
  exists postings,
    consolidate_jobs items = Ok postings
    /\ forall p, In p postings ->
         exists sentences,
           description p
           = match sentences with
             | [] => []
             | _ :: _ => join (py ". ") sentences ++ py "."
             end
           /\ NoDup (map spec_key sentences)
           /\ forall s, In s sentences ->
                10 < length s
                /\ exists item, In item items
                                /\ accepted_description item = true
                                /\ occurs s (extraction_text item).
Proof.
  intros items. apply (description_sentences_come_from_input items).
Defined.

(** ** The Filter and the jobs [main] displays *)

Lemma final_filtering_filter (jobs : list Posting) :
  final_filtering jobs = filter keeps jobs.
Proof. unfold final_filtering. apply (filter_loop jobs []). Qed.

Lemma filter_idem (A : Type) (f : A -> bool) (l : list A) :
  filter f (filter f l) = filter f l.
Proof.
  induction l as [|x l IH]; simpl; [reflexivity|].
  destruct (f x) eqn:E; simpl; [rewrite E, IH|]; auto.
Qed.

(** X16. Filtering twice is filtering once. *)
Theorem filtering_is_idempotent (jobs : list Posting) :
  final_filtering (final_filtering jobs) = final_filtering jobs.
Proof. rewrite !final_filtering_filter. apply filter_idem. Qed.

(** X17. Filtering goes posting by posting: the result for two lists put
    end to end is the two results put end to end, and it is never longer
    than the input. *)
Theorem filtering_distributes_over_append (jobs more : list Posting) :
  final_filtering (jobs ++ more)
  = final_filtering jobs ++ final_filtering more
  /\ length (final_filtering jobs) <= length jobs.
Proof.
  rewrite !final_filtering_filter. split; [apply filter_app|].
  apply filter_length_le.
Qed.

Lemma NoDup_map_filter (A B : Type) (f : A -> B) (g : A -> bool) (l : list A) :
  NoDup (map f l) -> NoDup (map f (filter g l)).
Proof.
  induction l as [|x l IH]; simpl; intros H; [constructor|].
  inversion H as [|y m Hx Hn]; subst. destruct (g x); simpl.
  - constructor; [|exact (IH Hn)]. intros Hin. apply Hx.
    apply in_map_iff in Hin. destruct Hin as [z [Ez Hz]].
    apply filter_In in Hz. apply in_map_iff. exists z. tauto.
  - exact (IH Hn).
Qed.

(** X18. [main] always gets its list of jobs, and every job it displays has
    a role keyword in its lowercased title, a title free of denylist
    terms, and a description of more than 50 characters that ends with a
    period; no two displayed jobs have the same title up to letter case. *)
Theorem displayed_jobs_are_well_formed (items : list Extraction) :
  exists jobs,
    main_filtered_jobs items = Ok jobs
    /\ NoDup (map (fun p => lower (title p)) jobs)
    /\ forall p, In p jobs ->
         has_role_keyword p
         /\ has_skip_term (title p) = false
         /\ 50 < length (description p)
         /\ exists s, description p = s ++ py ".".
Proof.
  destruct (consolidate_jobs_ok items) as [groups [_ [W [T C]]]].
  assert (N : NoDup (map (fun p => lower (title p)) (postings_of groups))).
  { rewrite (postings_lower_titles items groups T). exact W. }
  destruct (posting_title_clean items) as [ps2 [C2 Hclean]].
  rewrite C in C2. inversion C2; subst ps2.
  exists (final_filtering (postings_of groups)).
  unfold main_filtered_jobs. rewrite C. simpl. split; [reflexivity|].
  rewrite final_filtering_filter. split; [apply NoDup_map_filter; exact N|].
  intros p Hp. apply filter_In in Hp. destruct Hp as [Hin Hk].
  apply keeps_spec in Hk. destruct Hk as [Hrole Hlen].
  split; [exact Hrole|]. split; [exact (Hclean p Hin)|].
  split; [exact Hlen|].
  unfold postings_of in Hin. apply in_map_iff in Hin.
  destruct Hin as [[k g] [Ep _]]. subst p. simpl in *.
  destruct (description_shape (descriptions g)) as [[H|H] _]; [|exact H].
  rewrite H in Hlen. simpl in Hlen. lia.
Qed.

Lemma displayed_jobs_are_well_formed_witness :
  let items := [extraction "title" "Data Engineer";
                extraction "description"
                  "Builds the data pipelines and owns the warehouse of the company"] in
  exists jobs,
    main_filtered_jobs items = Ok jobs
    /\ NoDup (map (fun p => lower (title p)) jobs)
    /\ forall p, In p jobs ->
         has_role_keyword p
         /\ has_skip_term (title p) = false
         /\ 50 < length (description p)
         /\ exists s, description p = s ++ py ".".
Proof.
  intros items. apply (displayed_jobs_are_well_formed items).
Defined.

Lemma filter_none (A : Type) (f : A -> bool) (l : list A) :
  (forall x, In x l -> f x = false) -> filter f l = [].
Proof.
  induction l as [|x l IH]; simpl; intros H; [reflexivity|].
  rewrite (H x (or_introl eq_refl)). apply IH. intros y Hy. apply H.
  right. exact Hy.
Qed.

(** X19. Titles alone are never displayed: when no description fragment
    passes the denylist, [main] has no job to display. *)
Theorem no_description_no_displayed_job (items : list Extraction) :
  (forall item, In item items -> accepted_description item = false) ->
  main_filtered_jobs items = Ok [].
Proof.
  intros H.
  destruct (consolidate_jobs_ok items) as [groups [E [_ [_ C]]]].
  unfold main_filtered_jobs. rewrite C. simpl. f_equal.
  rewrite final_filtering_filter. apply filter_none. intros p Hp.
  unfold postings_of in Hp. apply in_map_iff in Hp.
  destruct Hp as [[k g] [Ep Hin]]. subst p.
  destruct (groups_hold_accepted_texts items groups E k g Hin) as [_ [_ D]].
  assert (Hd : descriptions g = []).
  { destruct (descriptions g) as [|x l]; [reflexivity|].
    destruct (D x (or_introl eq_refl)) as [item [Hi [Ha _]]].
    rewrite (H item Hi) in Ha. discriminate Ha. }
  unfold keeps, posting_of. simpl. rewrite Hd. apply andb_false_r.
Qed.

Lemma no_description_no_displayed_job_witness :
  main_filtered_jobs [extraction "title" "Data Engineer";
                      extraction "location" "Lahore";
                      extraction "description" "Uses Figma and Canva daily"]
  = Ok [].
Proof.
  apply no_description_no_displayed_job.
  intros item [Hi|[Hi|[Hi|[]]]]; subst item; reflexivity.
Defined.

(** ** [similarity] *)

Lemma lstrip_spaces (w s : str) :
  Forall (fun c => is_space c = true) w -> lstrip (w ++ s) = lstrip s.
Proof.
  induction 1 as [|c w Hc _ IH]; simpl; [reflexivity|].
  rewrite Hc. exact IH.
Qed.

Lemma strip_padding (w1 w2 s : str) :
  Forall (fun c => is_space c = true) w1 ->
  Forall (fun c => is_space c = true) w2 ->
  strip (w1 ++ s ++ w2) = strip s.
Proof.
  intros H1 H2. unfold strip. rewrite lstrip_spaces by exact H1.
  rewrite !rstrip_lstrip. f_equal. unfold rstrip.
  rewrite rev_app_distr, lstrip_spaces; [reflexivity|].
  apply Forall_rev. exact H2.
Qed.

Lemma lower_spaces (w : str) :
  Forall (fun c => is_space c = true) w ->
  Forall (fun c => is_space c = true) (lower w).
Proof.
  induction 1 as [|c w Hc _ IH]; simpl; constructor; [|exact IH].
  rewrite is_space_lower_char. exact Hc.
Qed.

(** X20. Whatever the ratio of [difflib] is, [similarity] does not see the
    case of the letters nor the white space around its arguments. *)
Theorem similarity_ignores_case_and_padding
  (R : Type) (ratio : str -> str -> R) (a b w1 w2 : str) :
  Forall (fun c => is_space c = true) w1 ->
  Forall (fun c => is_space c = true) w2 ->
  similarity ratio (w1 ++ a ++ w2) b = similarity ratio a b
  /\ similarity ratio a (w1 ++ b ++ w2) = similarity ratio a b
  /\ similarity ratio (lower a) (lower b) = similarity ratio a b.
Proof.
  intros H1 H2. unfold similarity.
  assert (E : forall s, strip (lower (w1 ++ s ++ w2)) = strip (lower s)).
  { intros s. unfold lower. rewrite !map_app.
    apply strip_padding; apply lower_spaces; assumption. }
  rewrite !E, !lower_idem. auto.
Qed.

Lemma similarity_ignores_case_and_padding_witness :
  let ratio := fun x y : str => str_eqb x y in
  similarity ratio (py "  " ++ py "Project Manager" ++ py " ") (py "project manager")
  = similarity ratio (py "Project Manager") (py "project manager").
Proof.
  intros ratio.
  apply (similarity_ignores_case_and_padding bool ratio
           (py "Project Manager") (py "project manager") (py "  ") (py " "));
    repeat constructor.
Defined.

(** ** The Segmenter: more text *)

Lemma chunk_nonempty (starts : str -> bool) (lines cur : list str) :
  cur <> [] -> chunk starts cur lines <> [].
Proof.
  intros H. destruct (chunk_heads starts lines cur H) as [ext [rest [E _]]].
  rewrite E. discriminate.
Qed.

(** The runs of more lines: all the runs but the last stay, and the last
    one is carried on. *)
Lemma chunk_app (starts : str -> bool) (A B cur : list str) :
  cur <> [] ->
  chunk starts cur (A ++ B)
  = removelast (chunk starts cur A)
      ++ chunk starts (last (chunk starts cur A) []) B.
Proof.
  revert cur. induction A as [|l A IH]; intros cur Hc.
  - destruct cur as [|x cur]; [contradiction|]. reflexivity.
  - cbn [app chunk]. destruct (starts l && nonempty cur).
    + rewrite (IH [l]) by discriminate.
      pose proof (chunk_nonempty starts A [l]) as Hne.
      destruct (chunk starts [l] A) as [|c0 cs] eqn:E;
        [exfalso; apply Hne; [discriminate | reflexivity]|].
      reflexivity.
    + apply IH. destruct cur; discriminate.
Qed.

Lemma removelast_map (A B : Type) (f : A -> B) (l : list A) :
  removelast (map f l) = map f (removelast l).
Proof.
  induction l as [|x l IH]; [reflexivity|].
  destruct l as [|y l]; [reflexivity|].
  cbn [map removelast] in *. rewrite IH. reflexivity.
Qed.

Lemma clean_lines_app (text more : str) :
  clean_lines (text ++ newline :: more) = clean_lines text ++ clean_lines more.
Proof.
  unfold clean_lines, split_lines.
  rewrite split_char_app, map_app, filter_app. reflexivity.
Qed.

(** X21. Text added after a line break leaves the earlier sections alone:
    every section but the last is returned unchanged at the same place,
    and the number of sections does not decrease. *)
Theorem more_text_keeps_earlier_sections (text more : str) :
  exists tail,
    extract_job_sections (text ++ newline :: more)
    = removelast (extract_job_sections text) ++ tail
    /\ length (extract_job_sections text)
       <= length (extract_job_sections (text ++ newline :: more)).
Proof.
  rewrite !extract_job_sections_chunk, clean_lines_app.
  destruct (clean_lines text) as [|l ls].
  - eexists. split; [reflexivity | simpl; lia].
  - cbn [app chunk nonempty]. rewrite !andb_false_r. cbn [app].
    rewrite (chunk_app is_job_start ls (clean_lines more) [l]) by discriminate.
    set (runs := chunk is_job_start [l] ls).
    assert (Hruns : runs <> []) by (apply chunk_nonempty; discriminate).
    set (rest := chunk is_job_start (last runs []) (clean_lines more)).
    assert (Hrest : rest <> []).
    { apply chunk_nonempty. intros E.
      destruct (@exists_last _ runs Hruns) as [r0 [c Er]].
      rewrite Er, last_last in E. subst c.
      assert (Hin : In [] runs) by (rewrite Er; apply in_or_app; right; left; reflexivity).
      destruct (chunk_In _ _ _ _ Hin) as [Hne _]. apply Hne. reflexivity. }
    exists (map (join [newline]) rest). split.
    + rewrite map_app, removelast_map. reflexivity.
    + rewrite !length_map, length_app.
      destruct (@exists_last _ runs Hruns) as [r0 [c Er]].
      rewrite Er, removelast_last, length_app. simpl.
      destruct rest; [contradiction | simpl; lia].
Qed.

(** ** The Segmenter: what starts a section *)

Lemma ci_match_lower (m w : str) :
  Forall2 (fun x c => ci_eqb x c = true) m w <-> lower m = lower w.
Proof.
  split.
  - induction 1 as [|x c m w Hxc _ IH]; [reflexivity|]. simpl.
    apply Ascii.eqb_eq in Hxc. rewrite Hxc, IH. reflexivity.
  - revert w. induction m as [|x m IH]; intros [|c w] H; try discriminate H.
    + constructor.
    + simpl in H. inversion H as [[Hxc Hmw]]. constructor.
      * unfold ci_eqb. rewrite Hxc. apply Ascii.eqb_refl.
      * apply IH. exact Hmw.
Qed.

(** Searching whatever the case is searching the lowercase word in the
    lowercased line. *)
Lemma ci_occurs_lower (w line : str) :
  ci_occurs w line <-> occurs (lower w) (lower line).
Proof.
  unfold ci_occurs, occurs. split.
  - intros [a [m [b [E H]]]]. apply ci_match_lower in H.
    exists (lower a), (lower b). subst line. unfold lower in *.
    rewrite !map_app, H. reflexivity.
  - intros [a' [b' E]]. unfold lower in E.
    apply map_eq_app in E. destruct E as [a [r [El [Ea Er]]]].
    apply map_eq_app in Er. destruct Er as [m [b [Er [Em Eb]]]].
    exists a, m, b. split; [subst; reflexivity|].
    apply ci_match_lower. exact Em.
Qed.

Lemma section_start_words_lowercase :
  Forall (fun w => lower w = w) section_start_words.
Proof. repeat constructor. Qed.

Lemma is_job_start_ci (line : str) :
  is_job_start line = true
  <-> exists w, In w section_start_words /\ ci_occurs w line.
Proof.
  rewrite is_job_start_words, existsb_exists.
  split; intros [w [Hin H]]; exists w; (split; [exact Hin|]);
    pose proof (proj1 (Forall_forall _ _) section_start_words_lowercase w Hin)
      as Hw.
  - apply ci_occurs_lower. rewrite Hw. apply contains_spec. exact H.
  - apply ci_occurs_lower in H. rewrite Hw in H. apply contains_spec. exact H.
Qed.

(** Every section after the first opens on a section-start line. *)
Lemma later_sections_open_on_starts (text : str) :
  Forall (fun s => start_headed is_job_start (split_lines s))
         (tl (extract_job_sections text)).
Proof.
  rewrite extract_job_sections_chunk.
  set (runs := chunk is_job_start [] (clean_lines text)).
  assert (Hruns : forall c, In c runs ->
                            split_lines (join [newline] c) = c).
  { intros c Hc. exact (proj1 (run_lines text c Hc)). }
  assert (Hh : Forall (start_headed is_job_start) (tl runs)).
  { unfold runs. destruct (clean_lines text) as [|l ls]; [constructor|].
    cbn [chunk nonempty]. rewrite andb_false_r. cbn [app].
    destruct (chunk_heads is_job_start ls [l]) as [ext [rest [E [H _]]]];
      [discriminate|].
    rewrite E. exact H. }
  destruct runs as [|c0 rest]; [constructor|]. simpl in *.
  apply Forall_forall. intros s Hs. apply in_map_iff in Hs.
  destruct Hs as [c [Es Hc]]. subst s.
  rewrite (Hruns c (or_intror Hc)).
  exact (proj1 (Forall_forall _ _) Hh c Hc).
Qed.

(** C5. A trimmed, non-blank line starts a section exactly when one of the
    words of the first two patterns (job titles, openings) is found in it
    by a search that ignores the case of the letters.  The sections are the
    clean lines of the text cut before such a line, and only when the
    current section is not empty: every section after the first opens on
    such a line.  The result does not depend on the patterns that follow
    the first two: a line that matches only the requirements pattern or
    the places pattern is appended like any other line. *)
Theorem section_starts_on_title_or_opening_words
  (line text : str) (sections current : list str) (others : list regex) :
  (is_job_start line = true
   <-> exists w, In w section_start_words /\ ci_occurs w line)
  /\ extract_job_sections text
     = map (join [newline]) (chunk is_job_start [] (clean_lines text))
  /\ Forall (fun s => start_headed is_job_start (split_lines s))
            (tl (extract_job_sections text))
  /\ extract_job_sections_with (title_pattern :: opening_pattern :: others) text
     = extract_job_sections text
  /\ (re_search requirement_pattern (py "Requirements:") = true
      /\ is_job_start (py "Requirements:") = false
      /\ re_search place_pattern (py "Lahore") = true
      /\ is_job_start (py "Lahore") = false)
  /\ (strip line <> [] ->
      section_step job_patterns (sections, current) line
      = if is_job_start (strip line)
        then match current with
             | [] => (sections, [strip line])
             | _ :: _ => (sections ++ [join [newline] current], [strip line])
             end
        else (sections, current ++ [strip line])).
Proof.
  split; [apply is_job_start_ci|].
  split; [apply extract_job_sections_chunk|].
  split; [apply later_sections_open_on_starts|].
  split; [reflexivity|]. split.
  - repeat split; vm_compute; reflexivity.
  - intros Hline. unfold section_step, is_job_start.
    destruct (strip line) as [|c l] eqn:E; [contradiction|]. cbn [nonempty negb].
    destruct (is_job_start_with job_patterns (c :: l)); [|reflexivity].
    destruct current; reflexivity.
Qed.

Lemma section_starts_on_title_or_opening_words_witness :
  let line := py "  Senior ROLE: DevOps Engineer " in
  let current := [py "About us"; py "Lahore"] in
  section_step job_patterns ([], current) line
  = if is_job_start (strip line)
    then match current with
         | [] => ([], [strip line])
         | _ :: _ => ([] ++ [join [newline] current], [strip line])
         end
    else ([], current ++ [strip line]).
Proof.
  intros line current.
  destruct (section_starts_on_title_or_opening_words line [] [] current [])
    as [_ [_ [_ [_ [_ H]]]]].
  apply H. vm_compute. discriminate.
Defined.
